(** * ClipSearch: the indexing-and-retrieval engine ([core/image_engine.py])

    A shallow embedding of [ImageEngine] (directory scan, fingerprint,
    cache load and save, batched embedding with cooperative cancellation,
    snapshot assembly, text and image search), of the [config] values it
    reads, and of the search gate of the window ([gui/main_window.py],
    [_start_search]).

    Modelling conventions.
    - Python [str] is [string] (byte strings; only ASCII case folding).
    - A float is a rational ([Q]): arithmetic is exact, rounding, NaN and
      infinities are outside the model.  A feature vector is [list Q], the
      feature matrix a list of rows.
    - The file system, the CLIP model and the other threads are the
      [World]: read-only oracles of a run.  The cache files are the only
      files the engine writes; they live in the [disk] of the [Machine].
    - Qt signals are [event]s, collected in emission order.  [print]
      output is not modelled.
    - A raised Python exception is [Raise msg], [msg] its [str(e)]. *)

From Stdlib Require Import Ascii QArith DecimalString.
From stdpp Require Import gmap strings list fin_maps sorting.

Set Default Proof Using "Type".

(** ** Python strings and [os.path] (POSIX flavour) *)

Module Py.

Definition ascii_lower (c : ascii) : ascii :=
  let n := Ascii.N_of_ascii c in
  if ((65 <=? n) && (n <=? 90))%N then Ascii.ascii_of_N (n + 32) else c.

(** [s.lower()] *)
Fixpoint lower (s : string) : string :=
  match s with
  | EmptyString => EmptyString
  | String c r => String (ascii_lower c) (lower r)
  end.

(** [s.endswith(suffix)] *)
Definition endswith (s suffix : string) : bool :=
  (String.length suffix <=? String.length s) &&
  String.eqb
    (String.substring (String.length s - String.length suffix)
                      (String.length suffix) s)
    suffix.

(** [s.endswith(tuple)] *)
Definition endswith_any (s : string) (suffixes : list string) : bool :=
  existsb (endswith s) suffixes.

(** [s.replace(old, new)] for one-character [old] and [new] *)
Fixpoint replace_char (old new : ascii) (s : string) : string :=
  match s with
  | EmptyString => EmptyString
  | String c r =>
      String (if Ascii.eqb c old then new else c) (replace_char old new r)
  end.

(** [str(n)] for a non-negative [int] *)
Definition str_of_nat (n : nat) : string :=
  NilZero.string_of_uint (Nat.to_uint n).

(** Splits at the last ["/"]: [Some (head, tail)] with
    [s = head ++ "/" ++ tail] and no slash in [tail]. *)
Fixpoint rsplit_slash (s : string) : option (string * string) :=
  match s with
  | EmptyString => None
  | String c r =>
      match rsplit_slash r with
      | Some (h, t) => Some (String c h, t)
      | None => if Ascii.eqb c "/" then Some (EmptyString, r) else None
      end
  end.

(** [os.path.basename(p)]: [p[p.rfind('/') + 1:]] *)
Definition basename (p : string) : string :=
  match rsplit_slash p with
  | Some (_, t) => t
  | None => p
  end.

Definition startswith_slash (s : string) : bool :=
  match s with
  | String c _ => Ascii.eqb c "/"
  | EmptyString => false
  end.

(** [os.path.join(a, b)] *)
Definition join (a b : string) : string :=
  if startswith_slash b then b
  else if String.eqb a "" || endswith a "/" then a +:+ b
  else a +:+ "/" +:+ b.

(** [range(0, stop, step)], [step > 0] *)
Definition range_step (stop step : nat) : list nat :=
  (λ k, k * step) <$> seq 0 (Nat.div (stop + (step - 1)) step).

(** [l[i:j]] for [0 <= i <= j] *)
Definition slice {A} (l : list A) (i j : nat) : list A :=
  take (j - i) (drop i l).

(** [l.index(x)]: the first position of [x], [None] for [ValueError] *)
Definition index (l : list string) (x : string) : option nat :=
  fst <$> list_find (λ y, y = x) l.

End Py.

(** ** [config.py] *)

Module config.

Definition IMAGE_EXTENSIONS : list string :=
  [".jpg"; ".jpeg"; ".png"; ".bmp"; ".webp"].

Definition BATCH_SIZE : nat := 64.

Definition CACHE_DIR_NAME : string := ".clip_search_cache".

Record model_info := { model_name : string; pretrained : string }.

(** [AVAILABLE_MODELS], without the ['notes'] the engine never reads. *)
Definition AVAILABLE_MODELS : list (string * model_info) :=
  [ ("Fast (ViT-B/32)",
     {| model_name := "ViT-B-32"; pretrained := "laion2b_s34b_b79k" |});
    ("High Quality (ViT-L/14)",
     {| model_name := "ViT-L-14"; pretrained := "laion2b_s32b_b82k" |});
    ("Best Quality (ViT-H/14)",
     {| model_name := "ViT-H-14"; pretrained := "laion2b_s32b_b79k" |}) ].

Fixpoint lookup_model (key : string) (l : list (string * model_info))
  : option model_info :=
  match l with
  | [] => None
  | (k, v) :: r => if String.eqb k key then Some v else lookup_model key r
  end.

End config.

(** [is_image_file(filename)] *)
Definition is_image_file (filename : string) : bool :=
  Py.endswith_any (Py.lower filename) config.IMAGE_EXTENSIONS.

(** ** Results and exceptions *)

Inductive result (A : Type) : Type :=
| Ok (a : A)
| Raise (msg : string).
Arguments Ok {A} a.
Arguments Raise {A} msg.

Definition result_map {A B} (f : A → B) (r : result A) : result B :=
  match r with
  | Ok a => Ok (f a)
  | Raise e => Raise e
  end.

Definition result_bind {A B} (r : result A) (f : A → result B) : result B :=
  match r with
  | Ok a => f a
  | Raise e => Raise e
  end.

(** ** The world around the engine *)

Abbreviation vector := (list Q).
Abbreviation matrix := (list (list Q)).

Record World := {
  (** [os.walk(folder)]: per visited directory, its path and its files *)
  walk : string → list (string * list string);
  (** [str(os.path.getmtime(p))]; [None] when the file cannot be stat-ed *)
  getmtime : string → option string;
  (** [os.path.isfile(p)] *)
  isfile : string → bool;
  (** [hashlib.md5(data).hexdigest()] *)
  md5_hexdigest : string → string;
  (** [self.preprocess(Image.open(p).convert("RGB"))]; [None] when any of
      the three steps raises (an unreadable or corrupt image) *)
  preprocess : string → option vector;
  (** [self.model.encode_image(torch.stack(batch))]: one row per image *)
  encode_image : list vector → result matrix;
  (** [self.model.encode_text(open_clip.tokenize([text]))] *)
  encode_text : string → result vector;
  (** [v / v.norm()] in floating point *)
  l2_normalize : vector → vector;
  (** [stop_requested j]: another thread calls [stop_indexing] after the
      cancellation check of batch [j - 1] and before that of batch [j] *)
  stop_requested : nat → bool;
}.

(** ** Fingerprint: [_get_directory_hash] *)

(** Lines 84-85: one loop iteration feeds the base name of the path,
    then the text of its modification time. *)
Definition hash_block (w : World) (file_path : string) : result string :=
  match getmtime w file_path with
  | Some mtime => Ok (Py.basename file_path +:+ mtime)
  | None =>
      Raise ("[Errno 2] No such file or directory: '" +:+ file_path +:+ "'")
  end.

(** The bytes the MD5 object has received when the loop ends. *)
Fixpoint hash_feed_sorted (w : World) (sorted_paths : list string)
  : result string :=
  match sorted_paths with
  | [] => Ok ""
  | p :: rest =>
      result_bind (hash_block w p) (λ b,
      result_map (λ s, b +:+ s) (hash_feed_sorted w rest))
  end.

(** [sorted(all_paths)]: the sorted list is unique, so any sorting
    algorithm models Python's. *)
Definition sorted (all_paths : list string) : list string :=
  merge_sort String.le all_paths.

Definition hash_feed (w : World) (all_paths : list string) : result string :=
  hash_feed_sorted w (sorted all_paths).

Definition _get_directory_hash (w : World) (image_folder : string)
    (all_paths : list string) : result string :=
  result_map (md5_hexdigest w) (hash_feed w all_paths).

(** ** Engine state, disk and signals *)

(** The attributes of [ImageEngine] the indexer and the search read or
    write.  [self.model] and [self.preprocess] are the [World]'s
    [encode_image], [encode_text] and [preprocess]. *)
Record Engine := {
  model_key : option string;
  _is_indexing : bool;
  image_paths : list string;
  image_features : option matrix;
  current_directory : option string;
}.

Definition set_is_indexing (b : bool) (e : Engine) : Engine :=
  {| model_key := model_key e; _is_indexing := b;
     image_paths := image_paths e; image_features := image_features e;
     current_directory := current_directory e |}.

Definition set_current_directory (d : string) (e : Engine) : Engine :=
  {| model_key := model_key e; _is_indexing := _is_indexing e;
     image_paths := image_paths e; image_features := image_features e;
     current_directory := Some d |}.

Definition set_image_paths (ps : list string) (e : Engine) : Engine :=
  {| model_key := model_key e; _is_indexing := _is_indexing e;
     image_paths := ps; image_features := image_features e;
     current_directory := current_directory e |}.

Definition set_image_features (fs : matrix) (e : Engine) : Engine :=
  {| model_key := model_key e; _is_indexing := _is_indexing e;
     image_paths := image_paths e; image_features := Some fs;
     current_directory := current_directory e |}.

(** [stop_indexing(self)] *)
Definition stop_indexing (e : Engine) : Engine := set_is_indexing false e.

(** The dictionary [pickle.load] returns.  Either key may be missing. *)
Record cache_entry := {
  ce_directory_hash : option string;
  ce_features : option (gmap string vector);
}.

(** The content of a file at a cache path. *)
Inductive file_data :=
| Pickled (data : cache_entry)
    (** a pickle of a dictionary *)
| Unreadable.
    (** anything [pickle.load] or [data.get] raises on: an empty or
        truncated file, corrupt bytes, a pickle of something else *)

Record Machine := {
  eng : Engine;
  disk : gmap string file_data;
}.

Definition with_eng (f : Engine → Engine) (m : Machine) : Machine :=
  {| eng := f (eng m); disk := disk m |}.

Definition with_disk (f : gmap string file_data → gmap string file_data)
    (m : Machine) : Machine :=
  {| eng := eng m; disk := f (disk m) |}.

(** The three Qt signals, and the calls to the model. *)
Inductive event :=
| progress (done total : nat) (msg : string)
| finished (msg : string)
| error (msg : string)
| encode_call (valid_paths : list string).
    (** [self.model.encode_image] ran on the images of [valid_paths] *)

(** ** The monad of [index_directory]: state, exceptions, signals

    A raised exception keeps the state and the signals of the statements
    that ran before it. *)

Definition M (A : Type) : Type := Machine → result A * Machine * list event.

Definition ret {A} (a : A) : M A := λ m, (Ok a, m, []).

Definition bind {A B} (c : M A) (k : A → M B) : M B :=
  λ m, match c m with
       | (Ok a, m1, evs1) =>
           match k a m1 with
           | (r, m2, evs2) => (r, m2, evs1 ++ evs2)
           end
       | (Raise e, m1, evs1) => (Raise e, m1, evs1)
       end.

Definition raise {A} (msg : string) : M A := λ m, (Raise msg, m, []).

Definition lift {A} (r : result A) : M A := λ m, (r, m, []).

Definition emit (ev : event) : M unit := λ m, (Ok tt, m, [ev]).

Definition modify (f : Machine → Machine) : M unit := λ m, (Ok tt, f m, []).

Definition get : M Machine := λ m, (Ok m, m, []).

Declare Scope engine_scope.
Delimit Scope engine_scope with engine.
Notation "x <- c ;; k" := (bind c (λ x, k))
  (at level 100, c at next level, right associativity) : engine_scope.
Notation "c ;; k" := (bind c (λ _, k))
  (at level 100, right associativity) : engine_scope.
Local Open Scope engine_scope.

(** ** Cache store *)

(** [_get_cache_path(self, image_folder)] *)
Definition _get_cache_path (e : Engine) (image_folder : string)
  : result (option string) :=
  match model_key e with
  | None => Ok None
  | Some key =>
      if String.eqb key "" then Ok None
      else match config.lookup_model key config.AVAILABLE_MODELS with
           | None => Raise ("'" +:+ key +:+ "'")
           | Some model_info =>
               let model_filename :=
                 config.model_name model_info +:+ "_" +:+
                 config.pretrained model_info in
               let sanitized_filename :=
                 Py.replace_char "-" "_" (Py.replace_char "/" "_" model_filename) in
               let cache_dir := Py.join image_folder config.CACHE_DIR_NAME in
               Ok (Some (Py.join cache_dir
                           ("cache_" +:+ sanitized_filename +:+ ".pkl")))
           end
  end.

(** [os.makedirs(os.path.dirname(cache_path), exist_ok=True)]: directories
    are not tracked; [os.path.dirname(None)] raises [TypeError]. *)
Definition makedirs_dirname (cache_path : option string) : M string :=
  match cache_path with
  | Some p => ret p
  | None => raise "expected str, bytes or os.PathLike object, not NoneType"
  end.

(** Lines 106-111: what the file at [cache_path] yields when it exists,
    unpickles to a dictionary and carries the fresh hash. *)
Definition valid_cache (d : gmap string file_data)
    (cache_path directory_hash : string) : option (gmap string vector) :=
  match d !! cache_path with
  | Some (Pickled data) =>
      if decide (ce_directory_hash data = Some directory_hash)
      then Some (default ∅ (ce_features data))
      else None
  | Some Unreadable => None
  | None => None
  end.

(** Lines 104-114: [cached_data] starts empty and is replaced by the
    features of a valid cache only. *)
Definition load_cache (cache_path directory_hash : string)
  : M (gmap string vector) :=
  m <- get ;;
  match valid_cache (disk m) cache_path directory_hash with
  | Some cached_data =>
      emit (progress 0 100
              ("Loaded " +:+ Py.str_of_nat (size cached_data) +:+
               " features from valid cache.")) ;;
      ret cached_data
  | None => ret ∅
  end.

(** [open(cache_path, 'wb')] creates or truncates the file itself. *)
Definition open_wb (cache_path : string) (d : gmap string file_data)
  : gmap string file_data :=
  <[cache_path := Unreadable]> d.

(** [pickle.dump(data, f)] followed by the close of the [with] block. *)
Definition pickle_dump (cache_path : string) (data : cache_entry)
    (d : gmap string file_data) : gmap string file_data :=
  <[cache_path := Pickled data]> d.

(** Lines 146-147, one disk update per statement. *)
Definition save_cache_steps (cache_path : string) (data : cache_entry)
  : list (gmap string file_data → gmap string file_data) :=
  [open_wb cache_path; pickle_dump cache_path data].

Definition run_steps {S} (steps : list (S → S)) (s : S) : S :=
  foldl (λ s f, f s) s steps.

(** The disk contents another process can see while [steps] run: the
    state after each step. *)
Fixpoint observable_states {S} (steps : list (S → S)) (s : S) : list S :=
  match steps with
  | [] => []
  | f :: rest => f s :: observable_states rest (f s)
  end.

Definition save_cache (cache_path : string) (data : cache_entry) : M unit :=
  modify (with_disk (run_steps (save_cache_steps cache_path data))).

(** ** Indexer: [index_directory] *)

(** Lines 94-96: the recursive scan. *)
Definition scan (w : World) (image_folder : string) : list string :=
  '(root, files) ← walk w image_folder;
  Py.join root <$> filter (λ file, is_image_file file = true) files.

(** Lines 126-133: the images of a batch that decode, with their paths. *)
Definition decode_batch (w : World) (batch_paths : list string)
  : list (string * vector) :=
  omap (λ path, pair path <$> preprocess w path) batch_paths.

(** Lines 140-141: [cached_data[path] = feature] over the zip. *)
Definition store_features (valid_paths : list string) (batch_features : matrix)
    (cached_data : gmap string vector) : gmap string vector :=
  foldl (λ c pf, <[pf.1 := pf.2]> c) cached_data (zip valid_paths batch_features).

(** Another thread's [stop_indexing], landing before the check of batch [j]. *)
Definition poll_stop (w : World) (j : nat) : M unit :=
  if stop_requested w j then modify (with_eng stop_indexing) else ret tt.

(** Lines 120-144, one list element per loop iteration, [j] the number of
    the iteration.  [None]: the loop took the [return] of line 123. *)
Fixpoint process_batches (w : World) (total : nat)
    (batches : list (list string)) (j : nat)
    (cached_data : gmap string vector) : M (option (gmap string vector)) :=
  match batches with
  | [] => ret (Some cached_data)
  | batch_paths :: rest =>
      poll_stop w j ;;
      m <- get ;;
      if negb (_is_indexing (eng m)) then
        emit (finished "Indexing cancelled.") ;;
        ret None
      else
        let decoded := decode_batch w batch_paths in
        let image_tensors := decoded.*2 in
        let valid_paths := decoded.*1 in
        match image_tensors with
        | [] => process_batches w total rest (S j) cached_data
        | _ :: _ =>
            batch_features <- lift (encode_image w image_tensors) ;;
            emit (encode_call valid_paths) ;;
            let batch_features := l2_normalize w <$> batch_features in
            let cached_data :=
              store_features valid_paths batch_features cached_data in
            let processed_count := size cached_data in
            emit (progress processed_count total
                    ("Indexing: " +:+ Py.str_of_nat processed_count +:+ "/" +:+
                     Py.str_of_nat total)) ;;
            process_batches w total rest (S j) cached_data
        end
  end.

(** [paths_to_process[i:i + BATCH_SIZE]] for [i] in
    [range(0, len(paths_to_process), BATCH_SIZE)] *)
Definition batches_of (batch_size : nat) (paths_to_process : list string)
  : list (list string) :=
  (λ i, Py.slice paths_to_process i (i + batch_size)) <$>
  Py.range_step (length paths_to_process) batch_size.

(** [torch.stack(rows)] *)
Definition torch_stack (rows : list vector) : result matrix :=
  match rows with
  | [] => Raise "stack expects a non-empty TensorList"
  | v :: rest =>
      if forallb (λ u, length u =? length v) rest then Ok rows
      else Raise "stack expects each tensor to be equal size"
  end.

(** Line 151:
    [[p for i, p in enumerate(paths) if ordered_features[i] is not None]] *)
Definition keep_embedded (paths : list string)
    (ordered_features : list (option vector)) : list string :=
  omap (λ ip, match ordered_features !! ip.1 with
              | Some (Some _) => Some ip.2
              | _ => None
              end)
       (imap pair paths).

(** Lines 149-154: the snapshot is swapped in attribute by attribute. *)
Definition assemble_snapshot (all_paths : list string)
    (cached_data : gmap string vector) : M unit :=
  modify (with_eng (set_image_paths all_paths)) ;;
  m <- get ;;
  let ordered_features := (λ p, cached_data !! p) <$> image_paths (eng m) in
  modify (with_eng
            (set_image_paths (keep_embedded (image_paths (eng m)) ordered_features))) ;;
  image_features <- lift (torch_stack (omap id ordered_features)) ;;
  modify (with_eng (set_image_features image_features)) ;;
  m <- get ;;
  emit (finished ("Indexing complete. " +:+
                  Py.str_of_nat (length (image_paths (eng m))) +:+
                  " images ready.")).

(** Line 116: [[p for p in all_paths if p not in cached_data]] *)
Definition paths_to_process (all_paths : list string)
    (cached_data : gmap string vector) : list string :=
  filter (λ p, cached_data !! p = None) all_paths.

(** Lines 93-154: the body of the [try]. *)
Definition index_body (w : World) (image_folder : string) : M unit :=
  modify (with_eng (set_current_directory image_folder)) ;;
  let all_paths := scan w image_folder in
  match all_paths with
  | [] => emit (error "No images found in the selected directory.")
  | _ :: _ =>
      m <- get ;;
      cache_path <- lift (_get_cache_path (eng m) image_folder) ;;
      cache_path <- makedirs_dirname cache_path ;;
      directory_hash <- lift (_get_directory_hash w image_folder all_paths) ;;
      cached_data <- load_cache cache_path directory_hash ;;
      after_loop <-
        match paths_to_process all_paths cached_data with
        | [] => ret (Some cached_data)
        | _ :: _ =>
            process_batches w (length all_paths)
              (batches_of config.BATCH_SIZE
                 (paths_to_process all_paths cached_data))
              0 cached_data
        end ;;
      match after_loop with
      | None => ret tt
      | Some cached_data =>
          save_cache cache_path
            {| ce_directory_hash := Some directory_hash;
               ce_features := Some cached_data |} ;;
          assemble_snapshot all_paths cached_data
      end
  end.

Definition nl : string := String (Ascii.ascii_of_nat 10) EmptyString.

(** [index_directory(self, image_folder)]: the flag is raised, the body
    runs under [except Exception] and [finally]. *)
Definition index_directory (w : World) (image_folder : string) (m : Machine)
  : Machine * list event :=
  let m := with_eng (set_is_indexing true) m in
  match index_body w image_folder m with
  | (Ok _, m, evs) => (with_eng (set_is_indexing false) m, evs)
  | (Raise e, m, evs) =>
      (with_eng (set_is_indexing false) m,
       evs ++ [error ("An unexpected error occurred during indexing." +:+ nl +:+
                      "Error: " +:+ e)])
  end.

(** ** Similarity search *)

Declare Scope result_scope.
Delimit Scope result_scope with res.
Notation "x <- c ;; k" := (result_bind c (λ x, k))
  (at level 100, c at next level, right associativity) : result_scope.

(** A tensor of similarities: after [.squeeze()] it is 0-dimensional when
    the matrix has one row, 1-dimensional otherwise. *)
Inductive Tensor :=
| T0 (x : Q)
| T1 (xs : list Q).

(** What [torch.topk] returns: [values] and [indices], of the dimension
    of its input. *)
Inductive TopK :=
| Top0 (value : Q) (index : nat)
| Top1 (values_indices : list (Q * nat)).

Definition dot (u v : vector) : Q :=
  foldr (λ xy acc, (xy.1 * xy.2 + acc)%Q) 0%Q (zip u v).

(** [features @ query.T] for [features] of shape (N, D) and [query] of
    shape (1, D'): the N entries of the (N, 1) product. *)
Definition matmul_T (features : matrix) (query : vector) : result (list Q) :=
  if forallb (λ r, length r =? length query) features
  then Ok ((λ r, dot r query) <$> features)
  else Raise "mat1 and mat2 shapes cannot be multiplied".

(** [.squeeze()] of an (N, 1) tensor drops every dimension of size 1. *)
Definition squeeze (column : list Q) : Tensor :=
  match column with
  | [x] => T0 x
  | _ => T1 column
  end.

(** [a] may stand before [b] in a descending ranking. *)
Definition score_ge (a b : Q * nat) : Prop := Is_true (Qle_bool b.1 a.1).

#[global] Instance score_ge_dec : RelDecision score_ge.
Proof. intros a b. unfold score_ge. apply _. Defined.

(** [torch.topk(t, k)]: the [k] largest entries in descending order, with
    their positions.  Torch leaves the order among equal entries open;
    here it is the one of a merge sort of the (value, position) pairs. *)
Definition topk (t : Tensor) (k : Z) : result TopK :=
  match t with
  | T0 x =>
      if ((0 <=? k) && (k <=? 1))%Z then Ok (Top0 x 0)
      else Raise "selected index k out of range"
  | T1 xs =>
      if ((0 <=? k) && (k <=? Z.of_nat (length xs)))%Z
      then Ok (Top1 (take (Z.to_nat k)
                       (merge_sort score_ge (zip xs (seq 0 (length xs))))))
      else Raise "selected index k out of range"
  end.

(** [zip(top_results.values, top_results.indices)]: a 0-dimensional
    tensor cannot be iterated. *)
Definition iter_topk (r : TopK) : result (list (Q * nat)) :=
  match r with
  | Top0 _ _ => Raise "iteration over a 0-d tensor"
  | Top1 l => Ok l
  end.

(** [similarities[query_idx] = value] *)
Definition setitem (t : Tensor) (query_idx : nat) (value : Q) : result Tensor :=
  match t with
  | T0 _ => Raise "too many indices for tensor of dimension 0"
  | T1 xs =>
      if query_idx <? length xs then Ok (T1 (<[query_idx := value]> xs))
      else Raise "index out of range"
  end.

(** [[(score.item(), self.image_paths[idx]) for score, idx in ...]] *)
Fixpoint results_of (image_paths : list string) (top : list (Q * nat))
  : result (list (Q * string)) :=
  match top with
  | [] => Ok []
  | (score, idx) :: rest =>
      match image_paths !! idx with
      | Some p => result_map (cons (score, p)) (results_of image_paths rest)
      | None => Raise "list index out of range"
      end
  end.

(** [self.image_features], as an operand *)
Definition features_of (e : Engine) : result matrix :=
  match image_features e with
  | Some fs => Ok fs
  | None => Raise "'NoneType' object is not subscriptable"
  end.

(** Lines 178-181 and 194-196: rank, clamp, pair with the paths. *)
Definition rank (e : Engine) (similarities : Tensor) (k : Z)
  : result (list (Q * string)) :=
  (top_results <- topk similarities k ;;
   top <- iter_topk top_results ;;
   results_of (image_paths e) top)%res.

(** [_search_by_text(self, text_query, top_k)] *)
Definition _search_by_text (w : World) (e : Engine) (text_query : string)
    (top_k : Z) : result (list (Q * string)) :=
  (query_features <- encode_text w text_query ;;
   let query_features := l2_normalize w query_features in
   image_features <- features_of e ;;
   product <- matmul_T image_features query_features ;;
   let similarities := squeeze product in
   rank e similarities (Z.min top_k (Z.of_nat (length (image_paths e)))))%res.

(** [_search_by_image(self, image_path, top_k)].  The [try] catches
    [ValueError] (the path is not in [image_paths]) and [IndexError] (no
    such row) only. *)
Definition _search_by_image (e : Engine) (image_path : string) (top_k : Z)
  : result (list (Q * string)) * list event :=
  let not_found :=
    (Ok [], [error ("Query image '" +:+ Py.basename image_path +:+
                    "' not found in index.")]) in
  match Py.index (image_paths e) image_path with
  | None => not_found
  | Some query_idx =>
      match features_of e with
      | Raise msg => (Raise msg, [])
      | Ok image_features =>
          match image_features !! query_idx with
          | None => not_found
          | Some query_features =>
              ((product <- matmul_T image_features query_features ;;
                let similarities := squeeze product in
                similarities <- setitem similarities query_idx (-1) ;;
                rank e similarities
                  (Z.min top_k (Z.of_nat (length (image_paths e)) - 1)))%res,
               [])
          end
      end
  end.

(** The argument of [search]: a [str], or any other Python object. *)
Inductive query :=
| QStr (s : string)
| QOther.

(** [search(self, query, top_k)] *)
Definition search (w : World) (e : Engine) (q : query) (top_k : Z)
  : result (list (Q * string)) * list event :=
  match image_features e with
  | None => (Ok [], [error "Please index a directory before searching."])
  | Some _ =>
      match q with
      | QStr s =>
          if isfile w s then _search_by_image e s top_k
          else (_search_by_text w e s top_k, [])
      | QOther => (Ok [], [])
      end
  end.

(** ** The search gate of the window ([gui/main_window.py]) *)

Inductive gui_action :=
| show_error_message (msg : string)
| search_results_ready (r : result (list (Q * string)) * list event).

(** [MainWindow._start_search(self, query, top_k)] *)
Definition _start_search (w : World) (e : Engine) (q : query) (top_k : Z)
  : gui_action :=
  if _is_indexing e then
    show_error_message
      "Please wait for the current indexing task to complete before starting a search."
  else search_results_ready (search w e q top_k).

(** ** Vocabulary of the statements *)


(** The paths whose images were sent to the model, in order. *)
Fixpoint encoded_paths (evs : list event) : list string :=
  match evs with
  | [] => []
  | encode_call valid_paths :: rest => valid_paths ++ encoded_paths rest
  | _ :: rest => encoded_paths rest
  end.

(** The image at [p] decodes. *)
Definition decodes (w : World) (p : string) : Prop := is_Some (preprocess w p).

#[global] Instance decodes_dec w p : Decision (decodes w p).
Proof. unfold decodes. apply _. Defined.

(** The run ended with the completion signal of line 154. *)
Definition completed (evs : list event) : Prop :=
  ∃ n, last evs = Some (finished ("Indexing complete. " +:+ Py.str_of_nat n +:+
                                  " images ready.")).

(** The run ended with the cancellation signal of line 122. *)
Definition cancelled (evs : list event) : Prop :=
  last evs = Some (finished "Indexing cancelled.").

(** No [error] signal was emitted. *)
Definition no_error (evs : list event) : Prop :=
  ∀ msg, error msg ∉ evs.

(** Everything of the engine but the indexing flag is the same. *)
Definition same_but_flag (e e' : Engine) : Prop :=
  model_key e' = model_key e ∧ image_paths e' = image_paths e ∧
  image_features e' = image_features e ∧
  current_directory e' = current_directory e.

(** A ranking in descending score order (equal scores in any order). *)
Definition descending {A} (ranking : list (Q * A)) : Prop :=
  Sorted (λ a b, (b.1 <= a.1)%Q) ranking.

(** The path a position of the snapshot stands for. *)
Definition path_at (image_paths : list string) (si : Q * nat) : Q * string :=
  (si.1, default "" (image_paths !! si.2)).

(** The world with another text encoder. *)
Definition set_encode_text (enc : string → result vector) (w : World) : World :=
  {| walk := walk w; getmtime := getmtime w; isfile := isfile w;
     md5_hexdigest := md5_hexdigest w; preprocess := preprocess w;
     encode_image := encode_image w; encode_text := enc;
     l2_normalize := l2_normalize w; stop_requested := stop_requested w |}.



(** ** Model loading: [load_model] *)

(** [open_clip] as [load_model] uses it. *)
Record OpenClip := {
  (** [open_clip.create_model_and_transforms(model_name=..., pretrained=...,
      device=...)]: [Raise] when the weights cannot be created *)
  create_model_and_transforms : config.model_info → result unit;
  (** [self.model.eval()] on the model just created *)
  model_eval : config.model_info → result unit;
}.

(** The engine together with [self.model]: [None], or the catalogue entry
    whose weights are held ([self.preprocess] is assigned with it). *)
Record Loaded := {
  engine : Engine;
  model : option config.model_info;
}.

Definition set_model_key (key : string) (e : Engine) : Engine :=
  {| model_key := Some key; _is_indexing := _is_indexing e;
     image_paths := image_paths e; image_features := image_features e;
     current_directory := current_directory e |}.

(** Lines 55-65: the body of the [try] of [load_model].  The state it
    returns is the one reached when it raises, too. *)
Definition load_model_body (oc : OpenClip) (key : string) (s : Loaded)
  : result unit * Loaded * list event :=
  let loading := progress 0 100 ("Loading model: " +:+ key +:+ "...") in
  match config.lookup_model key config.AVAILABLE_MODELS with
  | None => (Raise ("'" +:+ key +:+ "'"), s, [loading])
  | Some model_info =>
      match create_model_and_transforms oc model_info with
      | Raise e => (Raise e, s, [loading])
      | Ok _ =>
          let s1 := {| engine := engine s; model := Some model_info |} in
          match model_eval oc model_info with
          | Raise e => (Raise e, s1, [loading])
          | Ok _ =>
              (Ok tt,
               {| engine := set_model_key key (engine s1); model := model s1 |},
               [loading; finished "Model loaded successfully."])
          end
      end
  end.

(** [load_model(self, model_key)] *)
Definition load_model (oc : OpenClip) (key : string) (s : Loaded)
  : Loaded * list event :=
  if bool_decide (is_Some (model s)) && bool_decide (model_key (engine s) = Some key)
  then (s, [finished ("Model '" +:+ key +:+ "' is already loaded.")])
  else
    match load_model_body oc key s with
    | (Ok _, s', evs) => (s', evs)
    | (Raise e, s', evs) =>
        (s', evs ++ [error ("Failed to load model '" +:+ key +:+ "'." +:+ nl +:+
                            "Error: " +:+ e)])
    end.

(** ** Changing the model from the window ([gui/main_window.py]) *)

(** [self.engine.image_features = None] *)
Definition clear_image_features (e : Engine) : Engine :=
  {| model_key := model_key e; _is_indexing := _is_indexing e;
     image_paths := image_paths e; image_features := None;
     current_directory := current_directory e |}.

(** [MainWindow.change_model(self, model_key)], as far as the engine is
    concerned: the index is invalidated, then the queued [load_model]
    runs. *)
Definition change_model (oc : OpenClip) (key : string) (s : Loaded)
  : Loaded * list event :=
  if String.eqb key "" then (s, [])
  else load_model oc key
         {| engine := clear_image_features (engine s); model := model s |}.

(** ** Vocabulary of the further statements *)

(** The string has no ["/"]: a file name, as [os.walk] lists them. *)
Definition no_slash (s : string) : Prop := Py.rsplit_slash s = None.

(** [os.walk] lists file names, not paths. *)
Definition walk_lists_names (w : World) (image_folder : string) : Prop :=
  ∀ root files file,
    (root, files) ∈ walk w image_folder → file ∈ files → no_slash file.

(** No thread asks the run to stop. *)
Definition never_stopped (w : World) : Prop :=
  ∀ j, stop_requested w j = false.

(** The model answers every batch with one row per image. *)
Definition one_row_per_image (w : World) : Prop :=
  ∀ ts, ∃ fs, encode_image w ts = Ok fs ∧ length fs = length ts.

(** When the model answers, it is with one row per image. *)
Definition rows_match_images (w : World) : Prop :=
  ∀ ts fs, encode_image w ts = Ok fs → length fs = length ts.

(** The first component of the [progress] signals, in emission order. *)
Fixpoint progress_counts (evs : list event) : list nat :=
  match evs with
  | [] => []
  | progress done _ _ :: rest => done :: progress_counts rest
  | _ :: rest => progress_counts rest
  end.

(** The unexpected-error signal of line 157. *)
Definition unexpected_error (e : string) : event :=
  error ("An unexpected error occurred during indexing." +:+ nl +:+
         "Error: " +:+ e).

(** Every row the model returns has dimension [D] once normalized. *)
Definition embeds_to (w : World) (D : nat) : Prop :=
  ∀ ts fs, encode_image w ts = Ok fs →
           Forall (λ r, length (l2_normalize w r) = D) fs.

(** Everything of the engine but the model key is the same. *)
Definition same_but_key (e e' : Engine) : Prop :=
  _is_indexing e' = _is_indexing e ∧ image_paths e' = image_paths e ∧
  image_features e' = image_features e ∧
  current_directory e' = current_directory e.

(** ** Scenarios

    Small concrete worlds and engines the statements are evaluated on.
    The digest of the scenarios is the identity: a hash without any
    collision. *)

Module Scenario.



(** A loaded engine that has not indexed anything yet. *)
Definition fresh_engine : Engine := {|
  model_key := Some "Fast (ViT-B/32)";
  _is_indexing := false;
  image_paths := [];
  image_features := None;
  current_directory := None;
|}.

Definition cache_path : string :=
  "/pics/.clip_search_cache/cache_ViT_B_32_laion2b_s34b_b79k.pkl".

(** The directory [/pics] holds [a.jpg], [b.jpg], [c.jpg] and a text
    file.  The model embeds the three images to three different unit
    vectors. *)
Definition album : World := {|
  walk := λ d, [(d, ["a.jpg"; "b.jpg"; "c.jpg"; "notes.txt"])];
  getmtime := λ _, Some "1700000000.0";
  isfile := λ p, bool_decide (p ∈ ["/pics/a.jpg"; "/pics/b.jpg"; "/pics/c.jpg"]);
  md5_hexdigest := λ s, s;
  preprocess := λ p,
    if String.eqb p "/pics/a.jpg" then Some [1; 0]%Q
    else if String.eqb p "/pics/b.jpg" then Some [0; 1]%Q
    else Some [3 # 5; 4 # 5]%Q;
  encode_image := λ ts, Ok ts;
  encode_text := λ _, Ok [1; 0]%Q;
  l2_normalize := λ v, v;
  stop_requested := λ _, false;
|}.

(** [album] with a [c.jpg] that does not decode. *)
Definition album_broken_c : World := {|
  walk := walk album;
  getmtime := getmtime album;
  isfile := isfile album;
  md5_hexdigest := md5_hexdigest album;
  preprocess := λ p,
    if String.eqb p "/pics/c.jpg" then None else preprocess album p;
  encode_image := encode_image album;
  encode_text := encode_text album;
  l2_normalize := l2_normalize album;
  stop_requested := stop_requested album;
|}.

(** [album], with a [stop_indexing] before the first batch. *)
Definition album_stopped : World := {|
  walk := walk album;
  getmtime := getmtime album;
  isfile := isfile album;
  md5_hexdigest := md5_hexdigest album;
  preprocess := preprocess album;
  encode_image := encode_image album;
  encode_text := encode_text album;
  l2_normalize := l2_normalize album;
  stop_requested := λ j, bool_decide (j = 0);
|}.

(** Features computed by an earlier run for [a.jpg] and [b.jpg]. *)
Definition old_features : gmap string vector :=
  <["/pics/a.jpg" := [0; 1]%Q]> (<["/pics/b.jpg" := [1; 0]%Q]> ∅).

(** The cache an earlier run wrote when [/pics] held [a.jpg] and
    [b.jpg] only: its hash is the fingerprint of these two. *)
Definition cache_of_a_b : file_data :=
  Pickled {| ce_directory_hash := Some "a.jpg1700000000.0b.jpg1700000000.0";
             ce_features := Some old_features |}.

(** A cache with the fingerprint of the three images, and no feature
    for [c.jpg]. *)
Definition cache_without_c : file_data :=
  Pickled {| ce_directory_hash :=
               Some "a.jpg1700000000.0b.jpg1700000000.0c.jpg1700000000.0";
             ce_features := Some old_features |}.

Definition indexed_a_b : Engine := {|
  model_key := Some "Fast (ViT-B/32)";
  _is_indexing := false;
  image_paths := ["/pics/a.jpg"; "/pics/b.jpg"];
  image_features := Some [[0; 1]; [1; 0]]%Q;
  current_directory := Some "/pics";
|}.

Definition machine_a_b : Machine :=
  {| eng := indexed_a_b; disk := {[ cache_path := cache_of_a_b ]} |}.

Definition machine_without_c : Machine :=
  {| eng := indexed_a_b; disk := {[ cache_path := cache_without_c ]} |}.

Definition machine_fresh : Machine :=
  {| eng := fresh_engine; disk := ∅ |}.

(** An index of [a.jpg] alone. *)
Definition indexed_a : Engine := {|
  model_key := Some "Fast (ViT-B/32)";
  _is_indexing := false;
  image_paths := ["/pics/a.jpg"];
  image_features := Some [[1; 0]]%Q;
  current_directory := Some "/pics";
|}.

(** An index of five images. *)
Definition indexed_five : Engine := {|
  model_key := Some "Fast (ViT-B/32)";
  _is_indexing := false;
  image_paths := ["/pics/1.jpg"; "/pics/2.jpg"; "/pics/3.jpg";
                  "/pics/4.jpg"; "/pics/5.jpg"];
  image_features :=
    Some [[0; 1]; [1; 0]; [3 # 5; 4 # 5]; [-1; 0]; [4 # 5; 3 # 5]]%Q;
  current_directory := Some "/pics";
|}.

(** An index in which [b.jpg] and [c.jpg] have the same embedding, the
    opposite of the one of [a.jpg]. *)
Definition indexed_opposite : Engine := {|
  model_key := Some "Fast (ViT-B/32)";
  _is_indexing := false;
  image_paths := ["/pics/a.jpg"; "/pics/b.jpg"; "/pics/c.jpg"];
  image_features := Some [[1; 0]; [-1; 0]; [-1; 0]]%Q;
  current_directory := Some "/pics";
|}.

(** [indexed_a_b] while a new run is under way. *)
Definition reindexing_a_b : Engine := set_is_indexing true indexed_a_b.

(** The engine as [__init__] leaves it: no model loaded. *)
Definition unloaded_engine : Engine := {|
  model_key := None;
  _is_indexing := false;
  image_paths := [];
  image_features := None;
  current_directory := None;
|}.




(** [album] with three files none of which decodes. *)
Definition album_undecodable : World := {|
  walk := walk album;
  getmtime := getmtime album;
  isfile := isfile album;
  md5_hexdigest := md5_hexdigest album;
  preprocess := λ _, None;
  encode_image := encode_image album;
  encode_text := encode_text album;
  l2_normalize := l2_normalize album;
  stop_requested := stop_requested album;
|}.

(** [album] with a model that embeds every image to the same unit
    vector. *)
Definition album_flat : World := {|
  walk := walk album;
  getmtime := getmtime album;
  isfile := isfile album;
  md5_hexdigest := md5_hexdigest album;
  preprocess := preprocess album;
  encode_image := λ ts, Ok ((λ _, [1; 0]%Q) <$> ts);
  encode_text := encode_text album;
  l2_normalize := l2_normalize album;
  stop_requested := stop_requested album;
|}.

(** An [open_clip] that creates every model of the catalogue. *)
Definition open_clip_ok : OpenClip := {|
  create_model_and_transforms := λ _, Ok tt;
  model_eval := λ _, Ok tt;
|}.

(** The engine and its model before the first [load_model]. *)
Definition unloaded : Loaded := {| engine := unloaded_engine; model := None |}.

End Scenario.

(** * Properties *)

(** ** Strings *)

Lemma string_app_cons (c : ascii) (s t : string) :
  String c s +:+ t = String c (s +:+ t).
Proof. reflexivity. Qed.

Lemma string_app_nil_l (t : string) : "" +:+ t = t.
Proof. reflexivity. Qed.

Lemma string_length_app (s t : string) :
  String.length (s +:+ t) = String.length s + String.length t.
Proof.
  induction s as [|c s IH]; [done|].
  rewrite string_app_cons. simpl. by rewrite IH.
Qed.

Lemma string_app_assoc (s t u : string) : (s +:+ t) +:+ u = s +:+ t +:+ u.
Proof.
  induction s as [|c s IH]; [done|].
  rewrite !string_app_cons. by rewrite IH.
Qed.



(** ** Fingerprint *)

Section fingerprint.
Context (w : World).





End fingerprint.












(** ** The indexing flag *)

(** C10.  Whatever the run does (no image found, cancellation, an
    exception of the body, completion), [index_directory] returns with
    [_is_indexing] cleared: a [stop_indexing] that arrives after the
    return changes nothing, and the next run, which raises the flag
    itself, does not depend on the flag it finds. *)
Theorem index_directory_resets_flag (w : World) (image_folder : string)
    (m : Machine) :
  let m' := (index_directory w image_folder m).1 in
  _is_indexing (eng m') = false ∧
  with_eng stop_indexing m' = m' ∧
  ∀ w2 folder2 b,
    index_directory w2 folder2 (with_eng (set_is_indexing b) m')
      = index_directory w2 folder2 m'.
Proof.
  unfold index_directory.
  destruct (index_body w image_folder (with_eng (set_is_indexing true) m))
    as [[[?|e] m1] evs]; simpl; by repeat split.
Qed.

(** ** The batch loop *)

(** One iteration of the loop, in direct style. *)
Lemma process_batches_cons (w : World) (total : nat) (batch_paths : list string)
    (rest : list (list string)) (j : nat) (cached_data : gmap string vector)
    (m : Machine) :
  process_batches w total (batch_paths :: rest) j cached_data m =
    let m1 := if stop_requested w j then with_eng stop_indexing m else m in
    if _is_indexing (eng m1) then
      match decode_batch w batch_paths with
      | [] => process_batches w total rest (S j) cached_data m1
      | (_ :: _) as decoded =>
          match encode_image w decoded.*2 with
          | Raise e => (Raise e, m1, [])
          | Ok batch_features =>
              let cached_data' :=
                store_features decoded.*1 (l2_normalize w <$> batch_features)
                  cached_data in
              match process_batches w total rest (S j) cached_data' m1 with
              | (r, m2, evs) =>
                  (r, m2,
                   encode_call decoded.*1 ::
                   progress (size cached_data') total
                     ("Indexing: " +:+ Py.str_of_nat (size cached_data') +:+ "/" +:+
                      Py.str_of_nat total) :: evs)
              end
          end
      end
    else (Ok None, m1, [finished "Indexing cancelled."]).
Proof.
  cbn [process_batches]. unfold bind, poll_stop, get, modify, ret, emit, lift.
  destruct (stop_requested w j);
    cbn -[process_batches decode_batch store_features size String.append];
    [reflexivity|].
  destruct (_is_indexing (eng m));
    cbn -[process_batches decode_batch store_features size String.append];
    [|reflexivity].
  destruct (decode_batch w batch_paths) as [|pv decoded'];
    cbn -[process_batches decode_batch store_features size String.append].
  - by destruct (process_batches _ _ _ _ _ _) as [[? ?] ?].
  - destruct (encode_image w _) as [feats|e];
      cbn -[process_batches decode_batch store_features size String.append];
      [|reflexivity].
    by destruct (process_batches _ _ _ _ _ _) as [[? ?] ?].
Qed.

Lemma decode_batch_paths (w : World) (batch_paths : list string) :
  (decode_batch w batch_paths).*1 = filter (decodes w) batch_paths.
Proof.
  unfold decode_batch.
  induction batch_paths as [|p l IH]; [done|].
  rewrite filter_cons. cbn [omap list_omap].
  destruct (decide (decodes w p)) as [[v Hv]|Hn].
  - rewrite Hv. cbn. by rewrite <-IH.
  - destruct (preprocess w p) as [v|] eqn:E; [|exact IH].
    destruct Hn. unfold decodes. by rewrite E.
Qed.

Lemma store_features_lookup_notin (valid_paths : list string)
    (batch_features : matrix) (cached_data : gmap string vector) (p : string) :
  p ∉ valid_paths →
  store_features valid_paths batch_features cached_data !! p = cached_data !! p.
Proof.
  unfold store_features.
  revert batch_features cached_data.
  induction valid_paths as [|q l IH]; intros [|f fs] c Hp; try done.
  cbn. rewrite IH by (intros ?; apply Hp; by right).
  apply lookup_insert_ne. intros ->. apply Hp. by left.
Qed.

Lemma store_features_is_Some (valid_paths : list string)
    (batch_features : matrix) (cached_data : gmap string vector) (p : string) :
  is_Some (store_features valid_paths batch_features cached_data !! p) →
  is_Some (cached_data !! p) ∨ p ∈ valid_paths.
Proof.
  destruct (decide (p ∈ valid_paths)) as [?|Hp]; [by right|].
  rewrite store_features_lookup_notin by done. by left.
Qed.

Lemma poll_keeps (w : World) (j : nat) (m : Machine) :
  let m1 := if stop_requested w j then with_eng stop_indexing m else m in
  disk m1 = disk m ∧ same_but_flag (eng m) (eng m1).
Proof. by destruct (stop_requested w j). Qed.

(** The loop writes neither the disk nor the snapshot. *)
Lemma process_batches_frame (w : World) (total : nat)
    (batches : list (list string)) :
  ∀ j cached_data m r m' evs,
    process_batches w total batches j cached_data m = (r, m', evs) →
    disk m' = disk m ∧ same_but_flag (eng m) (eng m').
Proof.
  induction batches as [|b rest IH]; intros j c m r m' evs Hrun.
  - cbn in Hrun. unfold ret in Hrun. by simplify_eq.
  - rewrite process_batches_cons in Hrun. cbn zeta in Hrun.
    destruct (poll_keeps w j m) as [Hd (Hk & Hp & Hf & Hc)].
    set (m1 := if stop_requested w j then _ else _) in *.
    assert (∀ m2, disk m2 = disk m1 ∧ same_but_flag (eng m1) (eng m2) →
                  disk m2 = disk m ∧ same_but_flag (eng m) (eng m2)) as Htrans.
    { intros m2 [Hd2 (? & ? & ? & ?)]. unfold same_but_flag.
      rewrite Hd2, Hd. repeat split; congruence. }
    destruct (_is_indexing (eng m1)).
    + destruct (decode_batch w b) as [|pv dec].
      * apply Htrans. by eapply IH.
      * destruct (encode_image w _) as [feats|e].
        -- destruct (process_batches _ _ _ _ _ _) as [[r2 m2] evs2] eqn:Hrest.
           simplify_eq. apply Htrans. by eapply IH.
        -- simplify_eq. by apply Htrans.
    + simplify_eq. by apply Htrans.
Qed.

(** The loop only adds features for paths of its batches that decode. *)
Lemma process_batches_store (w : World) (total : nat)
    (batches : list (list string)) :
  ∀ j cached_data m cached_data' m' evs,
    process_batches w total batches j cached_data m
      = (Ok (Some cached_data'), m', evs) →
    (∀ p, p ∉ concat batches → cached_data' !! p = cached_data !! p) ∧
    (∀ p, is_Some (cached_data' !! p) →
          is_Some (cached_data !! p) ∨ (p ∈ concat batches ∧ decodes w p)).
Proof.
  induction batches as [|b rest IH]; intros j c m c' m' evs Hrun.
  - cbn in Hrun. unfold ret in Hrun. simplify_eq. split; [done|]. by left.
  - rewrite process_batches_cons in Hrun. cbn zeta in Hrun.
    set (m1 := if stop_requested w j then _ else _) in *.
    rewrite concat_cons.
    destruct (_is_indexing (eng m1)); [|done].
    pose proof (decode_batch_paths w b) as Hdec.
    destruct (decode_batch w b) as [|pv dec].
    + apply IH in Hrun as [Hout Hin]. split.
      * intros p Hp. apply Hout. intros ?. apply Hp, elem_of_app. by right.
      * intros p Hp. destruct (Hin p Hp) as [?|[? ?]]; [by left|right].
        split; [|done]. apply elem_of_app. by right.
    + destruct (encode_image w _) as [feats|e]; [|done].
      destruct (process_batches _ _ _ _ _ _) as [[r2 m2] evs2] eqn:Hrest.
      simplify_eq. apply IH in Hrest as [Hout Hin].
      rewrite Hdec in Hout, Hin. split.
      * intros p Hp. rewrite Hout.
        -- apply store_features_lookup_notin. intros Hq. apply Hp, elem_of_app.
           left. by apply list_elem_of_filter in Hq as [_ ?].
        -- intros ?. apply Hp, elem_of_app. by right.
      * intros p Hp. destruct (Hin p Hp) as [Hs|[? ?]].
        -- apply store_features_is_Some in Hs as [?|Hq]; [by left|right].
           apply list_elem_of_filter in Hq as [? ?]. split; [|done].
           apply elem_of_app. by left.
        -- right. split; [|done]. apply elem_of_app. by right.
Qed.

(** The signals of the loop: never an error; the model sees the images
    of the batches that decode, batch after batch; a loop that runs to
    its end has embedded all of them, a loop that returns ends on the
    cancellation signal. *)
Lemma process_batches_events (w : World) (total : nat)
    (batches : list (list string)) :
  ∀ j cached_data m r m' evs,
    process_batches w total batches j cached_data m = (r, m', evs) →
    no_error evs ∧
    encoded_paths evs `prefix_of` filter (decodes w) (concat batches) ∧
    match r with
    | Ok (Some _) =>
        encoded_paths evs = filter (decodes w) (concat batches) ∧
        ∀ msg, finished msg ∉ evs
    | Ok None => cancelled evs
    | Raise _ => True
    end.
Proof.
  induction batches as [|b rest IH]; intros j c m r m' evs Hrun.
  - cbn in Hrun. unfold ret in Hrun. simplify_eq.
    repeat split; try done; intros msg Hin; by apply elem_of_nil in Hin.
  - rewrite process_batches_cons in Hrun. cbn zeta in Hrun.
    set (m1 := if stop_requested w j then _ else _) in *.
    rewrite concat_cons, filter_app.
    pose proof (decode_batch_paths w b) as Hdec.
    destruct (_is_indexing (eng m1)).
    + destruct (decode_batch w b) as [|pv dec].
      * cbn in Hdec. rewrite <-Hdec. cbn [app]. by eapply IH.
      * destruct (encode_image w _) as [feats|e].
        -- destruct (process_batches _ _ _ _ _ _) as [[r2 m2] evs2] eqn:Hrest.
           simplify_eq. apply IH in Hrest as (Hne & Hpre & Hr).
           rewrite <-Hdec. cbn [encoded_paths]. split; [|split].
           ++ intros msg Hin. apply elem_of_cons in Hin as [?|Hin]; [done|].
              apply elem_of_cons in Hin as [?|Hin]; [done|]. by apply (Hne msg).
           ++ by apply prefix_app.
           ++ destruct r as [[c'|]|e]; [| |done].
              ** destruct Hr as [-> Hfin]. split; [done|].
                 intros msg Hin. apply elem_of_cons in Hin as [?|Hin]; [done|].
                 apply elem_of_cons in Hin as [?|Hin]; [done|]. by apply (Hfin msg).
              ** unfold cancelled in *. destruct evs2; [done|]. exact Hr.
        -- simplify_eq. repeat split; [|apply prefix_nil].
           intros msg Hin. by apply elem_of_nil in Hin.
    + simplify_eq. repeat split; [|apply prefix_nil].
      intros msg Hin. apply elem_of_cons in Hin as [?|Hin]; [done|].
      by apply elem_of_nil in Hin.
Qed.

(** A stop request before batch [k] ends the loop on the [return] of
    line 123, at the latest at the check of batch [k], provided the model
    has not raised before. *)
Lemma process_batches_cancel (w : World) (total : nat)
    (batches : list (list string)) :
  ∀ k j cached_data m,
    k < length batches → stop_requested w (j + k) = true →
    (∀ i b, i < k → batches !! i = Some b →
            ∃ fs, encode_image w (decode_batch w b).*2 = Ok fs) →
    ∃ m' evs,
      process_batches w total batches j cached_data m = (Ok None, m', evs) ∧
      encoded_paths evs `prefix_of`
        filter (decodes w) (concat (take k batches)).
Proof.
  induction batches as [|b rest IH]; intros k j c m Hk Hstop Henc;
    [cbn in Hk; lia|].
  rewrite process_batches_cons. cbn zeta.
  destruct (stop_requested w j) eqn:Hj; cbn [with_eng eng stop_indexing
    set_is_indexing _is_indexing].
  { eexists _, _. split; [done|]. apply prefix_nil. }
  destruct (_is_indexing (eng m)).
  2:{ eexists _, _. split; [done|]. apply prefix_nil. }
  destruct k as [|k]; [rewrite Nat.add_0_r in Hstop; congruence|].
  cbn in Hk. cbn [take]. rewrite concat_cons, filter_app.
  pose proof (decode_batch_paths w b) as Hdec.
  assert (∀ i b0, i < k → rest !! i = Some b0 →
                  ∃ fs, encode_image w (decode_batch w b0).*2 = Ok fs) as Henc'.
  { intros i b0 Hi Hb0. apply (Henc (S i) b0); [lia|done]. }
  destruct (Henc 0 b) as [fs Hfs]; [lia|done|].
  destruct (decode_batch w b) as [|pv dec].
  - cbn in Hdec. rewrite <-Hdec. cbn [app].
    apply IH; [lia| |done]. by rewrite <-Nat.add_succ_comm in Hstop.
  - rewrite Hfs.
    edestruct (IH k (S j)) as (m' & evs & -> & Hpre);
      [lia| by rewrite <-Nat.add_succ_comm in Hstop |done|].
    eexists _, _. split; [done|]. cbn [encoded_paths]. rewrite <-Hdec.
    by apply prefix_app.
Qed.

(** The loop over no path is no loop (line 118). *)
Lemma batches_of_nil : batches_of config.BATCH_SIZE [] = [].
Proof. reflexivity. Qed.

(** ** The whole run, in direct style *)

Lemma index_directory_unfold (w : World) (image_folder : string) (m : Machine)
    (cache_path directory_hash : string) :
  scan w image_folder ≠ [] →
  _get_cache_path (eng m) image_folder = Ok (Some cache_path) →
  _get_directory_hash w image_folder (scan w image_folder) = Ok directory_hash →
  index_directory w image_folder m =
    let all_paths := scan w image_folder in
    let m0 := with_eng (set_current_directory image_folder)
                (with_eng (set_is_indexing true) m) in
    let loaded := valid_cache (disk m) cache_path directory_hash in
    let cached_data := default ∅ loaded in
    let load_evs :=
      match loaded with
      | Some c => [progress 0 100 ("Loaded " +:+ Py.str_of_nat (size c) +:+
                                   " features from valid cache.")]
      | None => []
      end in
    let unexpected e :=
      error ("An unexpected error occurred during indexing." +:+ nl +:+
             "Error: " +:+ e) in
    match process_batches w (length all_paths)
            (batches_of config.BATCH_SIZE (paths_to_process all_paths cached_data))
            0 cached_data m0 with
    | (Ok None, m1, evs) =>
        (with_eng (set_is_indexing false) m1, load_evs ++ evs)
    | (Raise e, m1, evs) =>
        (with_eng (set_is_indexing false) m1, load_evs ++ evs ++ [unexpected e])
    | (Ok (Some cached_data'), m1, evs) =>
        let m2 :=
          with_disk (run_steps (save_cache_steps cache_path
                       {| ce_directory_hash := Some directory_hash;
                          ce_features := Some cached_data' |})) m1 in
        let ordered_features := (λ p, cached_data' !! p) <$> all_paths in
        let m3 :=
          with_eng (set_image_paths (keep_embedded all_paths ordered_features))
            (with_eng (set_image_paths all_paths) m2) in
        match torch_stack (omap id ordered_features) with
        | Ok rows =>
            (with_eng (set_is_indexing false)
               (with_eng (set_image_features rows) m3),
             load_evs ++ evs ++
             [finished ("Indexing complete. " +:+
                        Py.str_of_nat
                          (length (keep_embedded all_paths ordered_features)) +:+
                        " images ready.")])
        | Raise e =>
            (with_eng (set_is_indexing false) m3,
             load_evs ++ evs ++ [unexpected e])
        end
    end.
Proof.
  intros Hscan Hcp Hh. unfold index_directory, index_body.
  destruct (scan w image_folder) as [|p0 all] eqn:Escan; [done|].
  rewrite <-Escan in *. clear Hscan.
  unfold bind at 1. unfold modify at 1. unfold bind at 1. unfold get at 1.
  unfold bind at 1. unfold lift at 1.
  replace (_get_cache_path
             (eng (with_eng (set_current_directory image_folder)
                     (with_eng (set_is_indexing true) m))) image_folder)
    with (_get_cache_path (eng m) image_folder) by reflexivity.
  rewrite Hcp.
  unfold bind at 1. unfold makedirs_dirname, ret at 1.
  unfold bind at 1. unfold lift at 1. rewrite Hh.
  unfold bind at 1. unfold load_cache. unfold bind at 1. unfold get at 1.
  set (m0 := with_eng (set_current_directory image_folder)
               (with_eng (set_is_indexing true) m)).
  change (disk m0) with (disk m).
  assert (∀ c, match paths_to_process (scan w image_folder) c with
               | [] => ret (Some c)
               | _ :: _ =>
                   process_batches w (length (scan w image_folder))
                     (batches_of config.BATCH_SIZE
                        (paths_to_process (scan w image_folder) c)) 0 c
               end m0
             = process_batches w (length (scan w image_folder))
                 (batches_of config.BATCH_SIZE
                    (paths_to_process (scan w image_folder) c)) 0 c m0) as Hloop.
  { intros c. by destruct (paths_to_process _ c). }
  unfold bind. cbn zeta.
  destruct (valid_cache (disk m) cache_path directory_hash) as [c|];
    cbn [default]; unfold emit, ret; rewrite Hloop;
    destruct (process_batches _ _ _ _ _ _) as [[[[c'|]|e] m1] evs];
    try reflexivity.
  all: unfold save_cache, assemble_snapshot, bind, modify, get, lift, emit;
    cbn [with_eng eng set_image_paths image_paths];
    try destruct (torch_stack _); cbn [app];
    rewrite ?app_nil_r, <-?app_assoc; cbn [app]; reflexivity.
Qed.

(** The batches are consecutive slices: together, the list itself. *)
Lemma concat_slices {A} (l : list A) (n k : nat) :
  concat ((λ i, Py.slice l i (i + n)) <$> ((λ k, k * n) <$> seq 0 k))
    = take (k * n) l.
Proof.
  induction k as [|k IH]; [done|].
  rewrite seq_S, !fmap_app, concat_app, IH. cbn [fmap list_fmap concat seq].
  rewrite app_nil_r. unfold Py.slice.
  replace (0 + k) with k by lia.
  replace (k * n + n - k * n) with n by lia.
  rewrite take_take_drop. f_equal. lia.
Qed.

Lemma concat_batches_of (batch_size : nat) (l : list string) :
  0 < batch_size → concat (batches_of batch_size l) = l.
Proof.
  intros Hn. unfold batches_of, Py.range_step. rewrite concat_slices.
  apply take_ge.
  pose proof (Nat.div_mod_eq (length l + (batch_size - 1)) batch_size).
  pose proof (Nat.mod_upper_bound (length l + (batch_size - 1)) batch_size).
  nia.
Qed.

(** ** Snapshot assembly *)

Lemma keep_embedded_offset (c : gmap string vector) (paths : list string) :
  ∀ (k : nat) (ordered : list (option vector)),
    (∀ i p, paths !! i = Some p → ordered !! (k + i) = Some (c !! p)) →
    omap (λ ip : nat * string,
            match ordered !! ip.1 with
            | Some (Some _) => Some ip.2
            | _ => None
            end)
         (imap (λ i p, (k + i, p)) paths)
      = filter (λ p, is_Some (c !! p)) paths.
Proof.
  induction paths as [|p paths IH]; intros k ordered Hord; [done|].
  rewrite imap_cons, filter_cons. cbn [omap list_omap fst snd].
  rewrite (Hord 0 p eq_refl).
  rewrite (imap_ext _ (λ i q, (S k + i, q))) by (intros; cbn; f_equal; lia).
  rewrite IH.
  - destruct (c !! p) as [v|] eqn:E.
    + by rewrite decide_True by eauto.
    + by rewrite decide_False by (by intros [? ?]).
  - intros i q Hq. replace (S k + i) with (k + S i) by lia. by apply Hord.
Qed.

Lemma keep_embedded_filter (c : gmap string vector) (paths : list string) :
  keep_embedded paths ((λ p, c !! p) <$> paths)
    = filter (λ p, is_Some (c !! p)) paths.
Proof.
  unfold keep_embedded.
  rewrite <-(keep_embedded_offset c paths 0 ((λ p, c !! p) <$> paths)).
  - done.
  - intros i p Hp. cbn [Nat.add]. by rewrite list_lookup_fmap, Hp.
Qed.

(** Row [i] of the stacked features is the feature of path [i]. *)
Lemma snapshot_aligned (c : gmap string vector) (paths : list string) :
  Forall2 (λ p row, c !! p = Some row)
    (keep_embedded paths ((λ p, c !! p) <$> paths))
    (omap id ((λ p, c !! p) <$> paths)).
Proof.
  rewrite keep_embedded_filter.
  induction paths as [|p paths IH]; [constructor|].
  rewrite filter_cons, fmap_cons. cbn [omap list_omap].
  destruct (c !! p) as [v|] eqn:E; cbn.
  - rewrite decide_True by eauto. by constructor.
  - by rewrite decide_False by (by intros [? ?]).
Qed.

Lemma torch_stack_Ok (rows stacked : list vector) :
  torch_stack rows = Ok stacked → stacked = rows ∧ rows ≠ [].
Proof.
  unfold torch_stack. destruct rows as [|v rest]; [done|].
  destruct (forallb _ rest); [|done]. by intros [= <-].
Qed.

(** ** Signals at the end of a run *)

Lemma completed_snoc_error (evs : list event) (msg : string) :
  ¬ completed (evs ++ [error msg]).
Proof. intros [n Hn]. by rewrite last_snoc in Hn. Qed.

Lemma completed_app_cancelled (evs1 evs2 : list event) :
  cancelled evs2 → ¬ completed (evs1 ++ evs2).
Proof.
  unfold cancelled. intros Hc [n Hn]. rewrite last_app, Hc in Hn.
  by injection Hn.
Qed.

(** A run that completes has found images, a cache path and a hash. *)
Lemma index_directory_completed_inv (w : World) (image_folder : string)
    (m : Machine) :
  completed (index_directory w image_folder m).2 →
  scan w image_folder ≠ [] ∧
  ∃ cache_path directory_hash,
    _get_cache_path (eng m) image_folder = Ok (Some cache_path) ∧
    _get_directory_hash w image_folder (scan w image_folder)
      = Ok directory_hash.
Proof.
  unfold index_directory, index_body.
  destruct (scan w image_folder) as [|p0 all] eqn:Escan.
  { intros [n Hn]. done. }
  rewrite <-Escan. intros Hdone. split; [by rewrite Escan|]. revert Hdone.
  unfold bind at 1. unfold modify at 1. unfold bind at 1. unfold get at 1.
  unfold bind at 1. unfold lift at 1.
  replace (_get_cache_path
             (eng (with_eng (set_current_directory image_folder)
                     (with_eng (set_is_indexing true) m))) image_folder)
    with (_get_cache_path (eng m) image_folder) by reflexivity.
  destruct (_get_cache_path (eng m) image_folder) as [[cp|]|e].
  - unfold bind at 1. unfold makedirs_dirname, ret at 1.
    unfold bind at 1. unfold lift at 1.
    destruct (_get_directory_hash w image_folder (scan w image_folder))
      as [h|e]; [by eauto|].
    intros Hdone. by apply (completed_snoc_error []) in Hdone.
  - intros Hdone. by apply (completed_snoc_error []) in Hdone.
  - intros Hdone. by apply (completed_snoc_error []) in Hdone.
Qed.

Lemma encoded_paths_app (evs1 evs2 : list event) :
  encoded_paths (evs1 ++ evs2) = encoded_paths evs1 ++ encoded_paths evs2.
Proof.
  induction evs1 as [|[] evs1 IH]; cbn; try done. by rewrite IH, app_assoc.
Qed.

(** What a completed run has done. *)
Lemma index_directory_completed_spec (w : World) (image_folder : string)
    (m m' : Machine) (evs : list event) :
  index_directory w image_folder m = (m', evs) → completed evs →
  ∃ cache_path directory_hash cached_data' m1 evs1,
    let all_paths := scan w image_folder in
    let cached_data :=
      default ∅ (valid_cache (disk m) cache_path directory_hash) in
    _get_cache_path (eng m) image_folder = Ok (Some cache_path) ∧
    _get_directory_hash w image_folder all_paths = Ok directory_hash ∧
    process_batches w (length all_paths)
      (batches_of config.BATCH_SIZE (paths_to_process all_paths cached_data))
      0 cached_data
      (with_eng (set_current_directory image_folder)
         (with_eng (set_is_indexing true) m))
      = (Ok (Some cached_data'), m1, evs1) ∧
    encoded_paths evs = encoded_paths evs1 ∧
    image_paths (eng m')
      = keep_embedded all_paths ((λ p, cached_data' !! p) <$> all_paths) ∧
    image_features (eng m')
      = Some (omap id ((λ p, cached_data' !! p) <$> all_paths)) ∧
    disk m' !! cache_path
      = Some (Pickled {| ce_directory_hash := Some directory_hash;
                         ce_features := Some cached_data' |}).
Proof.
  intros Hrun Hdone.
  destruct (index_directory_completed_inv w image_folder m)
    as (Hscan & cp & h & Hcp & Hh); [by rewrite Hrun|].
  rewrite (index_directory_unfold w image_folder m cp h Hscan Hcp Hh) in Hrun.
  cbn zeta in Hrun.
  destruct (process_batches _ _ _ _ _ _) as [[r m1] evs1] eqn:Hloop.
  pose proof (process_batches_events _ _ _ _ _ _ _ _ _ Hloop) as (_ & _ & Hr).
  destruct r as [[c'|]|e].
  - destruct (torch_stack _) as [rows|e] eqn:Hstack; simplify_eq.
    + apply torch_stack_Ok in Hstack as [-> _].
      exists cp, h, c', m1, evs1. cbn zeta. repeat split; try done.
      * rewrite !encoded_paths_app. cbn [encoded_paths]. rewrite app_nil_r.
        by destruct (valid_cache _ _ _).
      * cbn. unfold pickle_dump. apply lookup_insert_eq.
    + rewrite !app_assoc in Hdone. by apply completed_snoc_error in Hdone.
  - simplify_eq. by apply completed_app_cancelled in Hdone.
  - simplify_eq. rewrite !app_assoc in Hdone.
    by apply completed_snoc_error in Hdone.
Qed.

Lemma paths_to_process_spec (all_paths : list string)
    (cached_data : gmap string vector) (p : string) :
  p ∈ paths_to_process all_paths cached_data ↔
  p ∈ all_paths ∧ cached_data !! p = None.
Proof. unfold paths_to_process. rewrite list_elem_of_filter. tauto. Qed.

(** ** Snapshot alignment *)

(** C5.  After a run that completes, the feature matrix has one row per
    path of [image_paths], row [i] is the feature stored for path [i] in
    the cache the run has written, every such path comes from the scan,
    and a path the run tried to decode and could not is not among them. *)
Theorem index_directory_alignment (w : World) (image_folder : string)
    (m m' : Machine) (evs : list event) :
  index_directory w image_folder m = (m', evs) → completed evs →
  ∃ cache_path directory_hash cached_data' rows,
    disk m' !! cache_path
      = Some (Pickled {| ce_directory_hash := Some directory_hash;
                         ce_features := Some cached_data' |}) ∧
    image_features (eng m') = Some rows ∧
    length rows = length (image_paths (eng m')) ∧
    (∀ i p, image_paths (eng m') !! i = Some p →
            p ∈ scan w image_folder ∧
            ∃ row, rows !! i = Some row ∧ cached_data' !! p = Some row) ∧
    (∀ p, p ∈ paths_to_process (scan w image_folder)
                (default ∅ (valid_cache (disk m) cache_path directory_hash)) →
          ¬ decodes w p →
          (p ∉ image_paths (eng m')) ∧ cached_data' !! p = None).
Proof.
  intros Hrun Hdone.
  destruct (index_directory_completed_spec w image_folder m m' evs Hrun Hdone)
    as (cp & h & c' & m1 & evs1 & Hcp & Hh & Hloop & _ & Hpaths & Hfeat & Hdisk).
  exists cp, h, c', (omap id ((λ p, c' !! p) <$> scan w image_folder)).
  pose proof (snapshot_aligned c' (scan w image_folder)) as Hal.
  rewrite <-Hpaths in Hal.
  split; [done|]. split; [done|]. split; [by apply Forall2_length in Hal|].
  split.
  - intros i p Hi. split.
    + apply list_elem_of_lookup_2 in Hi.
      rewrite Hpaths, keep_embedded_filter in Hi.
      by apply list_elem_of_filter in Hi as [_ ?].
    + destruct (Forall2_lookup_l _ _ _ _ _ Hal Hi) as (row & ? & ?). eauto.
  - intros p Hp Hdec. apply paths_to_process_spec in Hp as [Hp Hnone].
    apply process_batches_store in Hloop as [_ Hin].
    assert (c' !! p = None) as Hc'.
    { destruct (c' !! p) as [v|] eqn:E; [|done].
      destruct (Hin p) as [Hs|[_ ?]]; [by rewrite E| |done].
      rewrite Hnone in Hs. by destruct Hs. }
    split; [|done]. rewrite Hpaths, keep_embedded_filter.
    intros Hk. apply list_elem_of_filter in Hk as [Hs _].
    rewrite Hc' in Hs. by destruct Hs.
Qed.

Lemma index_directory_alignment_witness :
  ∃ cache_path directory_hash cached_data' rows,
    let m' := (index_directory Scenario.album_broken_c "/pics"
                 Scenario.machine_fresh).1 in
    disk m' !! cache_path
      = Some (Pickled {| ce_directory_hash := Some directory_hash;
                         ce_features := Some cached_data' |}) ∧
    image_features (eng m') = Some rows ∧
    length rows = length (image_paths (eng m')) ∧
    (∀ i p, image_paths (eng m') !! i = Some p →
            p ∈ scan Scenario.album_broken_c "/pics" ∧
            ∃ row, rows !! i = Some row ∧ cached_data' !! p = Some row) ∧
    (∀ p, p ∈ paths_to_process (scan Scenario.album_broken_c "/pics")
                (default ∅ (valid_cache (disk Scenario.machine_fresh)
                              cache_path directory_hash)) →
          ¬ decodes Scenario.album_broken_c p →
          (p ∉ image_paths (eng m')) ∧ cached_data' !! p = None).
Proof.
  apply (index_directory_alignment Scenario.album_broken_c "/pics"
           Scenario.machine_fresh _
           [encode_call ["/pics/a.jpg"; "/pics/b.jpg"];
            progress 2 3 "Indexing: 2/3";
            finished "Indexing complete. 2 images ready."]).
  - vm_compute. reflexivity.
  - exists 2. reflexivity.
Defined.

(** ** Incremental reuse *)

Lemma paths_to_process_empty (all_paths : list string) :
  paths_to_process all_paths ∅ = all_paths.
Proof.
  unfold paths_to_process. induction all_paths as [|p l IH]; [done|].
  rewrite filter_cons, decide_True by apply lookup_empty. by f_equal.
Qed.

(** C1, as stated, fails.  The cache was written when [/pics] held
    [a.jpg] and [b.jpg]; the scan now finds [c.jpg] too, so the fresh
    fingerprint differs from the cached one.  The run sends all three
    images to the model, and the rows of [a.jpg] and [b.jpg] in the new
    snapshot are the fresh embeddings, not the cached vectors. *)
Lemma stale_cache_is_not_reused :
  let run := index_directory Scenario.album "/pics" Scenario.machine_a_b in
  disk Scenario.machine_a_b !! Scenario.cache_path
    = Some (Pickled
              {| ce_directory_hash := Some "a.jpg1700000000.0b.jpg1700000000.0";
                 ce_features := Some Scenario.old_features |}) ∧
  _get_directory_hash Scenario.album "/pics" (scan Scenario.album "/pics")
    = Ok "a.jpg1700000000.0b.jpg1700000000.0c.jpg1700000000.0" ∧
  Scenario.old_features !! "/pics/a.jpg" = Some [0; 1]%Q ∧
  Scenario.old_features !! "/pics/b.jpg" = Some [1; 0]%Q ∧
  encoded_paths run.2 = ["/pics/a.jpg"; "/pics/b.jpg"; "/pics/c.jpg"] ∧
  image_paths (eng run.1) = ["/pics/a.jpg"; "/pics/b.jpg"; "/pics/c.jpg"] ∧
  image_features (eng run.1) = Some [[1; 0]; [0; 1]; [3 # 5; 4 # 5]]%Q.
Proof. vm_compute. repeat split; reflexivity. Qed.

(** C1, amended.  Reuse is gated on the whole fingerprint.  When the
    cache file carries another fingerprint than the fresh one (or is
    missing or unreadable), nothing is reused and every scanned path is
    to be processed.  When it carries the fresh fingerprint, its features
    are taken as they are: only images of scanned paths absent from the
    cache are sent to the model, and in the snapshot of a completed run
    every scanned path of the cache has its cached vector as its row. *)
Theorem index_directory_reuse (w : World) (image_folder : string)
    (m m' : Machine) (evs : list event) (cache_path directory_hash : string) :
  scan w image_folder ≠ [] →
  _get_cache_path (eng m) image_folder = Ok (Some cache_path) →
  _get_directory_hash w image_folder (scan w image_folder) = Ok directory_hash →
  index_directory w image_folder m = (m', evs) →
  let cached_data := default ∅ (valid_cache (disk m) cache_path directory_hash) in
  let todo := paths_to_process (scan w image_folder) cached_data in
  (∀ data, disk m !! cache_path = Some (Pickled data) →
           ce_directory_hash data ≠ Some directory_hash →
           cached_data = ∅ ∧ todo = scan w image_folder) ∧
  (∀ data, disk m !! cache_path = Some (Pickled data) →
           ce_directory_hash data = Some directory_hash →
           cached_data = default ∅ (ce_features data)) ∧
  encoded_paths evs `prefix_of` filter (decodes w) todo ∧
  (completed evs →
   encoded_paths evs = filter (decodes w) todo ∧
   ∃ rows, image_features (eng m') = Some rows ∧
     ∀ p v, p ∈ scan w image_folder → cached_data !! p = Some v →
            ∃ i, image_paths (eng m') !! i = Some p ∧ rows !! i = Some v).
Proof.
  intros Hscan Hcp Hh Hrun cached_data todo.
  split; [|split; [|split]].
  - intros data Hdata Hne. subst cached_data todo.
    unfold valid_cache. rewrite Hdata, decide_False by done. split; [done|].
    apply paths_to_process_empty.
  - intros data Hdata Heq. subst cached_data.
    unfold valid_cache. by rewrite Hdata, decide_True by done.
  - rewrite (index_directory_unfold w image_folder m cache_path directory_hash
               Hscan Hcp Hh) in Hrun.
    cbn zeta in Hrun. fold cached_data in Hrun. fold todo in Hrun.
    destruct (process_batches _ _ _ _ _ _) as [[r m1] evs1] eqn:Hloop.
    apply process_batches_events in Hloop as (_ & Hpre & _).
    rewrite concat_batches_of in Hpre by (unfold config.BATCH_SIZE; lia).
    assert (encoded_paths evs = encoded_paths evs1) as ->; [|done].
    assert (∀ ev, encoded_paths
              (match valid_cache (disk m) cache_path directory_hash with
               | Some c => [progress 0 100
                              ("Loaded " +:+ Py.str_of_nat (size c) +:+
                               " features from valid cache.")]
               | None => []
               end ++ evs1 ++ match ev with
                              | Some (encode_call _) | None => []
                              | Some ev => [ev]
                              end) = encoded_paths evs1) as Henc.
    { intros ev. rewrite !encoded_paths_app.
      destruct (valid_cache _ _ _), ev as [[]|]; cbn; by rewrite app_nil_r. }
    destruct r as [[c'|]|e].
    + destruct (torch_stack _); simplify_eq.
      * apply (Henc (Some (finished _))).
      * apply (Henc (Some (error _))).
    + simplify_eq. rewrite <-(Henc None). by rewrite app_nil_r.
    + simplify_eq. apply (Henc (Some (error _))).
  - intros Hdone.
    destruct (index_directory_completed_spec w image_folder m m' evs Hrun Hdone)
      as (cp & h & c' & m1 & evs1 & Hcp' & Hh' & Hloop & Henc & Hpaths & Hfeat & _).
    rewrite Hcp in Hcp'. rewrite Hh in Hh'. simplify_eq.
    fold cached_data in Hloop. fold todo in Hloop.
    pose proof (process_batches_events _ _ _ _ _ _ _ _ _ Hloop) as (_ & _ & Hall & _).
    rewrite concat_batches_of in Hall by (unfold config.BATCH_SIZE; lia).
    split; [congruence|].
    eexists. split; [exact Hfeat|]. intros p v Hp Hv.
    apply process_batches_store in Hloop as [Hout _].
    rewrite concat_batches_of in Hout by (unfold config.BATCH_SIZE; lia).
    assert (c' !! p = Some v) as Hc'.
    { rewrite Hout; [done|]. intros [_ Hnone]%paths_to_process_spec. congruence. }
    pose proof (snapshot_aligned c' (scan w image_folder)) as Hal.
    rewrite <-Hpaths in Hal.
    assert (p ∈ image_paths (eng m')) as Hin.
    { rewrite Hpaths, keep_embedded_filter. apply list_elem_of_filter.
      split; [by rewrite Hc'|done]. }
    apply list_elem_of_lookup_1 in Hin as [i Hi]. exists i. split; [done|].
    destruct (Forall2_lookup_l _ _ _ _ _ Hal Hi) as (row & Hrow & Hp').
    congruence.
Qed.

Lemma index_directory_reuse_witness :
  let m := Scenario.machine_without_c in
  let run := index_directory Scenario.album "/pics" m in
  let h := "a.jpg1700000000.0b.jpg1700000000.0c.jpg1700000000.0" in
  let cached_data := default ∅ (valid_cache (disk m) Scenario.cache_path h) in
  let todo := paths_to_process (scan Scenario.album "/pics") cached_data in
  (∀ data, disk m !! Scenario.cache_path = Some (Pickled data) →
           ce_directory_hash data ≠ Some h →
           cached_data = ∅ ∧ todo = scan Scenario.album "/pics") ∧
  (∀ data, disk m !! Scenario.cache_path = Some (Pickled data) →
           ce_directory_hash data = Some h →
           cached_data = default ∅ (ce_features data)) ∧
  encoded_paths run.2 `prefix_of` filter (decodes Scenario.album) todo ∧
  (completed run.2 →
   encoded_paths run.2 = filter (decodes Scenario.album) todo ∧
   ∃ rows, image_features (eng run.1) = Some rows ∧
     ∀ p v, p ∈ scan Scenario.album "/pics" → cached_data !! p = Some v →
            ∃ i, image_paths (eng run.1) !! i = Some p ∧ rows !! i = Some v).
Proof.
  apply (index_directory_reuse Scenario.album "/pics"
           Scenario.machine_without_c).
  - vm_compute. discriminate.
  - vm_compute. reflexivity.
  - vm_compute. reflexivity.
  - vm_compute. reflexivity.
Defined.

(** ** Cancellation *)

(** C2.  When a stop request lands before the cancellation check of some
    batch [k] of the run (and the model has not raised before), the run
    ends on the cancellation signal, with no error signal; the model has
    seen images of batches before [k] only; the disk, [image_paths] and
    [image_features] are what they were before the run. *)
Theorem index_directory_cancel_frame (w : World) (image_folder : string)
    (m : Machine) (cache_path directory_hash : string) (k : nat) :
  scan w image_folder ≠ [] →
  _get_cache_path (eng m) image_folder = Ok (Some cache_path) →
  _get_directory_hash w image_folder (scan w image_folder) = Ok directory_hash →
  let cached_data := default ∅ (valid_cache (disk m) cache_path directory_hash) in
  let batches :=
    batches_of config.BATCH_SIZE
      (paths_to_process (scan w image_folder) cached_data) in
  k < length batches →
  stop_requested w k = true →
  (∀ i b, i < k → batches !! i = Some b →
          ∃ fs, encode_image w (decode_batch w b).*2 = Ok fs) →
  let run := index_directory w image_folder m in
  cancelled run.2 ∧ no_error run.2 ∧
  encoded_paths run.2 `prefix_of` filter (decodes w) (concat (take k batches)) ∧
  disk run.1 = disk m ∧
  image_paths (eng run.1) = image_paths (eng m) ∧
  image_features (eng run.1) = image_features (eng m) ∧
  _is_indexing (eng run.1) = false.
Proof.
  intros Hscan Hcp Hh cached_data batches Hk Hstop Henc run. subst run.
  rewrite (index_directory_unfold w image_folder m cache_path directory_hash
             Hscan Hcp Hh).
  cbn zeta. fold cached_data. fold batches.
  edestruct (process_batches_cancel w (length (scan w image_folder)) batches
               k 0 cached_data) as (m1 & evs1 & Hloop & Hpre); [done..|].
  rewrite Hloop.
  pose proof (process_batches_frame _ _ _ _ _ _ _ _ _ Hloop)
    as (Hdisk & _ & Hpaths & Hfeat & _).
  pose proof (process_batches_events _ _ _ _ _ _ _ _ _ Hloop)
    as (Hne & _ & Hcanc).
  cbn [fst snd with_eng eng disk set_is_indexing image_paths image_features
       _is_indexing].
  repeat split; try done.
  - unfold cancelled in *. by rewrite last_app, Hcanc.
  - intros msg [Hin|Hin]%elem_of_app; [|by apply (Hne msg)].
    destruct (valid_cache _ _ _); [|by apply elem_of_nil in Hin].
    apply elem_of_cons in Hin as [?|Hin]; [done|]. by apply elem_of_nil in Hin.
  - rewrite encoded_paths_app.
    by destruct (valid_cache _ _ _).
Qed.

Lemma index_directory_cancel_frame_witness :
  let m := Scenario.machine_a_b in
  let run := index_directory Scenario.album_stopped "/pics" m in
  cancelled run.2 ∧ no_error run.2 ∧
  encoded_paths run.2 `prefix_of` [] ∧
  disk run.1 = disk m ∧
  image_paths (eng run.1) = image_paths (eng m) ∧
  image_features (eng run.1) = image_features (eng m) ∧
  _is_indexing (eng run.1) = false.
Proof.
  apply (index_directory_cancel_frame Scenario.album_stopped "/pics"
           Scenario.machine_a_b Scenario.cache_path
           "a.jpg1700000000.0b.jpg1700000000.0c.jpg1700000000.0" 0).
  - vm_compute. discriminate.
  - vm_compute. reflexivity.
  - vm_compute. reflexivity.
  - vm_compute. lia.
  - vm_compute. reflexivity.
  - intros i b Hi. lia.
Defined.

(** ** Search: dispatch and gate *)

Lemma index_None (l : list string) (x : string) :
  x ∉ l → Py.index l x = None.
Proof.
  intros Hx. unfold Py.index.
  destruct (list_find (λ y, y = x) l) as [[i y]|] eqn:E; [|done].
  apply list_find_Some in E as (Hi & -> & _).
  by apply list_elem_of_lookup_2 in Hi.
Qed.

(** C9.  A string that names an existing file is never searched as
    text: with an index loaded, [search] is the image search on that path;
    when the path is not in the snapshot the answer is an error signal and
    no result; and the text encoder has no say in the answer.  A string
    that names no file goes to the text search.  (Before any of this,
    an engine without an index answers every query with an error signal
    and no result.) *)
Theorem search_dispatch (w : World) (e : Engine) (s : string) (top_k : Z) :
  (isfile w s = true →
   (is_Some (image_features e) →
    search w e (QStr s) top_k = _search_by_image e s top_k) ∧
   (s ∉ image_paths e →
    ∃ msg, search w e (QStr s) top_k = (Ok [], [error msg])) ∧
   (∀ enc, search (set_encode_text enc w) e (QStr s) top_k
           = search w e (QStr s) top_k)) ∧
  (isfile w s = false →
   is_Some (image_features e) →
   search w e (QStr s) top_k = (_search_by_text w e s top_k, [])) ∧
  (image_features e = None →
   search w e (QStr s) top_k
     = (Ok [], [error "Please index a directory before searching."])).
Proof.
  unfold search. split; [|split].
  - intros Hfile. cbn [isfile set_encode_text]. rewrite Hfile.
    split; [|split].
    + by intros [rows ->].
    + intros Hs. destruct (image_features e); [|by eauto].
      unfold _search_by_image. rewrite index_None by done. by eauto.
    + done.
  - intros Hfile [rows ->]. by rewrite Hfile.
  - by intros ->.
Qed.

Lemma search_dispatch_witness :
  (search Scenario.album Scenario.indexed_a_b (QStr "/pics/a.jpg") 5
     = _search_by_image Scenario.indexed_a_b "/pics/a.jpg" 5) ∧
  (∃ msg, search Scenario.album Scenario.indexed_a_b (QStr "/pics/c.jpg") 5
          = (Ok [], [error msg])) ∧
  (search Scenario.album Scenario.indexed_a_b (QStr "a cat") 5
     = (_search_by_text Scenario.album Scenario.indexed_a_b "a cat" 5, [])) ∧
  (search Scenario.album Scenario.fresh_engine (QStr "/pics/a.jpg") 5
     = (Ok [], [error "Please index a directory before searching."])).
Proof.
  split; [|split; [|split]].
  - refine (proj1 (proj1 (search_dispatch Scenario.album Scenario.indexed_a_b
                            "/pics/a.jpg" 5) _) _).
    + reflexivity.
    + by eexists.
  - refine (proj1 (proj2 (proj1 (search_dispatch Scenario.album
                                   Scenario.indexed_a_b "/pics/c.jpg" 5) _)) _).
    + reflexivity.
    + compute_done.
  - refine (proj1 (proj2 (search_dispatch Scenario.album Scenario.indexed_a_b
                            "a cat" 5)) _ _).
    + reflexivity.
    + by eexists.
  - refine (proj2 (proj2 (search_dispatch Scenario.album Scenario.fresh_engine
                            "/pics/a.jpg" 5)) _).
    reflexivity.
Defined.

(** C8, as stated, fails: with the indexing flag raised, [search] answers
    a text query from the snapshot it holds, without any error signal. *)
Lemma search_served_while_indexing :
  _is_indexing Scenario.reindexing_a_b = true ∧
  search Scenario.album Scenario.reindexing_a_b (QStr "a cat") 5
    = (Ok [(1%Q, "/pics/b.jpg"); (0%Q, "/pics/a.jpg")], []).
Proof. split; reflexivity. Qed.

(** C8, amended.  [search] never reads the indexing flag.  The rejection
    is the window's: with the flag raised, [_start_search] shows an error
    message and does not call [search]; with the flag down it passes the
    answer of [search] on. *)
Theorem search_gate_is_in_the_window (w : World) (e : Engine) (q : query)
    (top_k : Z) :
  (∀ b, search w (set_is_indexing b e) q top_k = search w e q top_k) ∧
  (_is_indexing e = true →
   _start_search w e q top_k =
     show_error_message
       "Please wait for the current indexing task to complete before starting a search.") ∧
  (_is_indexing e = false →
   _start_search w e q top_k = search_results_ready (search w e q top_k)).
Proof.
  split; [done|]. unfold _start_search. split; by intros ->.
Qed.

Lemma search_gate_is_in_the_window_witness :
  _start_search Scenario.album Scenario.reindexing_a_b (QStr "a cat") 5 =
    show_error_message
      "Please wait for the current indexing task to complete before starting a search." ∧
  _start_search Scenario.album Scenario.indexed_a_b (QStr "a cat") 5 =
    search_results_ready
      (search Scenario.album Scenario.indexed_a_b (QStr "a cat") 5).
Proof.
  split.
  - apply (proj1 (proj2 (search_gate_is_in_the_window Scenario.album
                           Scenario.reindexing_a_b (QStr "a cat") 5))).
    reflexivity.
  - apply (proj2 (proj2 (search_gate_is_in_the_window Scenario.album
                           Scenario.indexed_a_b (QStr "a cat") 5))).
    reflexivity.
Defined.

(** ** Cache save *)

(** C7, as stated, fails: while the cache of [a.jpg] and [b.jpg] is
    being replaced, the first state another process can observe holds
    neither the old entry nor the new one at the cache path, but a file a
    load cannot read. *)
Lemma cache_save_is_not_atomic :
  let old := disk Scenario.machine_a_b in
  let new_entry :=
    {| ce_directory_hash :=
         Some "a.jpg1700000000.0b.jpg1700000000.0c.jpg1700000000.0";
       ce_features := Some Scenario.old_features |} in
  old !! Scenario.cache_path = Some Scenario.cache_of_a_b ∧
  ∃ d, observable_states (save_cache_steps Scenario.cache_path new_entry) old
         !! 0 = Some d ∧
       d !! Scenario.cache_path = Some Unreadable.
Proof.
  split; [reflexivity|]. eexists. split; [reflexivity|].
  unfold open_wb. apply lookup_insert_eq.
Qed.

(** C7, amended.  A save opens the cache path itself for writing, which
    truncates it, and dumps the pickled entry into it: no other path is
    written (no temporary file, no rename).  While the save runs the
    cache path holds a file no load can use; when it ends the path holds
    the new entry. *)
Theorem cache_save_in_place (cache_path : string) (data : cache_entry)
    (d : gmap string file_data) :
  observable_states (save_cache_steps cache_path data) d
    = [<[cache_path := Unreadable]> d; <[cache_path := Pickled data]> d] ∧
  run_steps (save_cache_steps cache_path data) d
    = <[cache_path := Pickled data]> d ∧
  (∀ h, valid_cache (<[cache_path := Unreadable]> d) cache_path h = None) ∧
  (∀ d' p, d' ∈ observable_states (save_cache_steps cache_path data) d →
           p ≠ cache_path → d' !! p = d !! p).
Proof.
  assert (pickle_dump cache_path data (open_wb cache_path d)
          = <[cache_path := Pickled data]> d) as Hdump.
  { unfold pickle_dump, open_wb. apply insert_insert_eq. }
  split; [|split; [|split]].
  - cbn. by rewrite Hdump.
  - cbn. by rewrite Hdump.
  - intros h. unfold valid_cache. by rewrite lookup_insert_eq.
  - intros d' p Hd' Hp. cbn in Hd'. rewrite Hdump in Hd'. unfold open_wb in Hd'.
    apply elem_of_cons in Hd' as [->|Hd'].
    { by apply lookup_insert_ne. }
    apply elem_of_cons in Hd' as [->|Hd'].
    { by apply lookup_insert_ne. }
    by apply elem_of_nil in Hd'.
Qed.

Lemma cache_save_in_place_witness :
  (<[Scenario.cache_path := Unreadable]> (disk Scenario.machine_a_b)
     : gmap string file_data) !! "/pics/a.jpg"
  = disk Scenario.machine_a_b !! "/pics/a.jpg".
Proof.
  apply (proj2 (proj2 (proj2
           (cache_save_in_place Scenario.cache_path
              {| ce_directory_hash := None; ce_features := None |}
              (disk Scenario.machine_a_b))))).
  - left.
  - discriminate.
Defined.

(** ** Ranking *)

#[local] Instance score_ge_total : Total score_ge.
Proof.
  intros a b. unfold score_ge.
  destruct (Qlt_le_dec a.1 b.1) as [Hlt|Hle].
  - right. apply Is_true_true, Qle_bool_iff. by apply Qlt_le_weak.
  - left. by apply Is_true_true, Qle_bool_iff.
Qed.

#[local] Instance score_ge_trans : Transitive score_ge.
Proof.
  intros a b c. unfold score_ge.
  rewrite !Is_true_true, !Qle_bool_iff. intros ??. by eapply Qle_trans.
Qed.

Lemma squeeze_vector (column : list Q) :
  2 ≤ length column → squeeze column = T1 column.
Proof. destruct column as [|? [|? ?]]; cbn; [lia..|done]. Qed.

Lemma topk_vector (xs : list Q) (k : Z) :
  (0 ≤ k ≤ Z.of_nat (length xs))%Z →
  topk (T1 xs) k =
    Ok (Top1 (take (Z.to_nat k)
                (merge_sort score_ge (zip xs (seq 0 (length xs)))))).
Proof.
  intros [H0 Hk]. unfold topk.
  apply Z.leb_le in H0, Hk. by rewrite H0, Hk.
Qed.

Lemma results_of_path_at (image_paths : list string) (top : list (Q * nat)) :
  Forall (λ si, si.2 < length image_paths) top →
  results_of image_paths top = Ok (path_at image_paths <$> top).
Proof.
  induction 1 as [|[sc i] top Hi Htop IH]; [done|].
  cbn [results_of]. cbn in Hi.
  destruct (lookup_lt_is_Some_2 image_paths i Hi) as [p Hp].
  rewrite Hp, IH. unfold path_at at 2. cbn. by rewrite Hp.
Qed.

Lemma path_at_zip_seq (image_paths : list string) (xs : list Q) :
  length xs = length image_paths →
  path_at image_paths <$> zip xs (seq 0 (length xs)) = zip xs image_paths.
Proof.
  intros Hlen. apply list_eq. intros i.
  rewrite list_lookup_fmap, !lookup_zip_with.
  destruct (xs !! i) as [x|] eqn:Hx; [|done]. cbn.
  apply lookup_lt_Some in Hx as Hi.
  rewrite lookup_seq_lt by done. cbn.
  destruct (lookup_lt_is_Some_2 image_paths i) as [p Hp]; [lia|].
  rewrite Hp. unfold path_at. cbn. by rewrite Hp.
Qed.

Lemma sorted_indices_bound (xs : list Q) :
  Forall (λ si : Q * nat, si.2 < length xs)
    (merge_sort score_ge (zip xs (seq 0 (length xs)))).
Proof.
  apply Forall_forall. intros [x i] Hin.
  rewrite merge_sort_Permutation in Hin.
  apply elem_of_zip_r, elem_of_seq in Hin. cbn. lia.
Qed.

(** Ranking a vector of [N >= 2] similarities: the answer is the first
    [k] entries of a descending arrangement of all (score, path) pairs. *)
Lemma rank_vector (e : Engine) (xs : list Q) (k : Z) :
  length xs = length (image_paths e) →
  (0 ≤ k ≤ Z.of_nat (length xs))%Z →
  ∃ ranking,
    rank e (T1 xs) k = Ok (take (Z.to_nat k) ranking) ∧
    ranking ≡ₚ zip xs (image_paths e) ∧
    descending ranking.
Proof.
  intros Hlen Hk.
  exists (path_at (image_paths e) <$>
          merge_sort score_ge (zip xs (seq 0 (length xs)))).
  split; [|split].
  - unfold rank. rewrite topk_vector by done. cbn.
    rewrite results_of_path_at.
    + by rewrite fmap_take.
    + apply Forall_take. rewrite <-Hlen. apply sorted_indices_bound.
  - rewrite merge_sort_Permutation. by rewrite path_at_zip_seq.
  - unfold descending.
    eapply Sorted_fmap; [|apply (Sorted_merge_sort score_ge); apply _].
    intros a b. unfold score_ge, path_at. cbn.
    by rewrite Is_true_true, Qle_bool_iff.
Qed.

Lemma matmul_T_Ok (rows : matrix) (q : vector) :
  Forall (λ r, length r = length q) rows →
  matmul_T rows q = Ok ((λ r, dot r q) <$> rows).
Proof.
  intros Hdim. unfold matmul_T.
  assert (forallb (λ r, length r =? length q) rows = true) as ->; [|done].
  apply forallb_forall. intros r Hr%list_elem_of_In.
  apply Nat.eqb_eq. by eapply Forall_forall in Hdim.
Qed.

(** Text search over a snapshot of [N >= 2] rows: exactly
    [min(top_k, N)] pairs, the first ones of a descending arrangement of
    the dot products of all rows with the normalized query. *)
Lemma search_by_text_ranks (w : World) (e : Engine) (text_query : string)
    (top_k : Z) (rows : matrix) (q0 : vector) :
  image_features e = Some rows →
  encode_text w text_query = Ok q0 →
  length rows = length (image_paths e) →
  2 ≤ length rows →
  Forall (λ r, length r = length (l2_normalize w q0)) rows →
  (1 ≤ top_k)%Z →
  ∃ ranking res,
    _search_by_text w e text_query top_k = Ok res ∧
    ranking ≡ₚ zip ((λ r, dot r (l2_normalize w q0)) <$> rows) (image_paths e) ∧
    descending ranking ∧
    res = take (Z.to_nat (Z.min top_k (Z.of_nat (length rows)))) ranking ∧
    length res = Z.to_nat (Z.min top_k (Z.of_nat (length rows))).
Proof.
  intros Hfeat Henc Hlen HN Hdim Hk.
  unfold _search_by_text, features_of. rewrite Henc, Hfeat. cbn.
  rewrite matmul_T_Ok by done. cbn.
  rewrite squeeze_vector by (by rewrite length_fmap).
  destruct (rank_vector e ((λ r, dot r (l2_normalize w q0)) <$> rows)
              (Z.min top_k (Z.of_nat (length (image_paths e)))))
    as (ranking & Hrank & Hperm & Hsort).
  { by rewrite length_fmap. }
  { rewrite length_fmap. lia. }
  exists ranking, (take (Z.to_nat (Z.min top_k (Z.of_nat (length rows)))) ranking).
  rewrite Hlen. repeat split; try done.
  rewrite length_take. apply Permutation_length in Hperm.
  rewrite Hperm, length_zip_with, length_fmap. lia.
Qed.

(** Image search over a snapshot of [N >= 2] rows: exactly
    [min(top_k, N - 1)] pairs, the first ones of a descending arrangement
    of the similarities in which the one of the query row is [-1]. *)
Lemma search_by_image_ranks (e : Engine) (image_path : string) (top_k : Z)
    (rows : matrix) (query_idx : nat) (query_features : vector) :
  image_features e = Some rows →
  Py.index (image_paths e) image_path = Some query_idx →
  rows !! query_idx = Some query_features →
  length rows = length (image_paths e) →
  2 ≤ length rows →
  Forall (λ r, length r = length query_features) rows →
  (1 ≤ top_k)%Z →
  ∃ ranking res,
    _search_by_image e image_path top_k = (Ok res, []) ∧
    ranking ≡ₚ zip (<[query_idx := (-1)%Q]>
                      ((λ r, dot r query_features) <$> rows))
                   (image_paths e) ∧
    descending ranking ∧
    res = take (Z.to_nat (Z.min top_k (Z.of_nat (length rows) - 1))) ranking ∧
    length res = Z.to_nat (Z.min top_k (Z.of_nat (length rows) - 1)).
Proof.
  intros Hfeat Hidx Hrow Hlen HN Hdim Hk.
  unfold _search_by_image, features_of. rewrite Hidx, Hfeat, Hrow.
  rewrite matmul_T_Ok by done. cbn.
  rewrite squeeze_vector by (by rewrite length_fmap).
  unfold setitem. rewrite length_fmap.
  apply lookup_lt_Some in Hrow as Hq.
  apply Nat.ltb_lt in Hq as ->. cbn.
  destruct (rank_vector e
              (<[query_idx := (-1)%Q]> ((λ r, dot r query_features) <$> rows))
              (Z.min top_k (Z.of_nat (length (image_paths e)) - 1)))
    as (ranking & Hrank & Hperm & Hsort).
  { by rewrite length_insert, length_fmap. }
  { rewrite length_insert, length_fmap. lia. }
  exists ranking,
    (take (Z.to_nat (Z.min top_k (Z.of_nat (length rows) - 1))) ranking).
  rewrite Hlen, Hrank. repeat split; try done.
  rewrite length_take. apply Permutation_length in Hperm.
  rewrite Hperm, length_zip_with, length_insert, length_fmap. lia.
Qed.

Lemma index_Some (l : list string) (x : string) (i : nat) :
  Py.index l x = Some i → l !! i = Some x.
Proof.
  unfold Py.index.
  destruct (list_find (λ y, y = x) l) as [[j y]|] eqn:E; [|done].
  intros [= <-]. by apply list_find_Some in E as (Hi & -> & _).
Qed.

(** With distinct paths and every other row strictly above [-1], image
    search does not return the query path. *)
Lemma search_by_image_excludes_self (e : Engine) (image_path : string)
    (top_k : Z) (rows : matrix) (query_idx : nat) (query_features : vector)
    (res : list (Q * string)) :
  image_features e = Some rows →
  Py.index (image_paths e) image_path = Some query_idx →
  rows !! query_idx = Some query_features →
  length rows = length (image_paths e) →
  2 ≤ length rows →
  Forall (λ r, length r = length query_features) rows →
  (1 ≤ top_k)%Z →
  NoDup (image_paths e) →
  (∀ i r, rows !! i = Some r → i ≠ query_idx →
          (-1 < dot r query_features)%Q) →
  _search_by_image e image_path top_k = (Ok res, []) →
  ∀ score, (score, image_path) ∉ res.
Proof.
  intros Hfeat Hidx Hrow Hlen HN Hdim Hk Hnd Hstrict Hres score Hin.
  destruct (search_by_image_ranks e image_path top_k rows query_idx
              query_features Hfeat Hidx Hrow Hlen HN Hdim Hk)
    as (ranking & res' & Hres' & Hperm & Hsort & -> & _).
  rewrite Hres in Hres'. injection Hres' as ->.
  set (sims := <[query_idx := (-1)%Q]> ((λ r, dot r query_features) <$> rows)) in *.
  set (k := Z.to_nat (Z.min top_k (Z.of_nat (length rows) - 1))) in *.
  apply index_Some in Hidx as Hq.
  assert (length sims = length rows) as Hsims.
  { subst sims. by rewrite length_insert, length_fmap. }
  assert (length ranking = length rows) as Hlr.
  { apply Permutation_length in Hperm.
    rewrite Hperm, length_zip_with, Hsims. lia. }
  (* every entry of the ranking is a (similarity, path) pair of one row *)
  assert (∀ y, y ∈ ranking →
               y = ((-1)%Q, image_path) ∨ (-1 < y.1)%Q) as Hentry.
  { intros y Hy. rewrite Hperm in Hy.
    apply elem_of_lookup_zip_with in Hy as (j & a & b & -> & Ha & Hb).
    destruct (decide (j = query_idx)) as [->|Hne].
    - left. subst sims. rewrite list_lookup_insert_eq in Ha.
      + congruence.
      + rewrite length_fmap. by eapply lookup_lt_Some.
    - right. subst sims. rewrite list_lookup_insert_ne in Ha by done.
      rewrite list_lookup_fmap in Ha.
      destruct (rows !! j) as [r|] eqn:Hr; [|done].
      injection Ha as <-. cbn. by eapply Hstrict. }
  assert (NoDup ranking) as Hndr.
  { rewrite Hperm. apply NoDup_zip_with_r_strong; [|done].
    by intros ?????? ???? [= _ ?]. }
  destruct (lookup_lt_is_Some_2 ranking k) as [y Hy]; [lia|].
  assert (y ∈ drop k ranking) as Hyd.
  { apply list_elem_of_lookup. exists 0. by rewrite lookup_drop, Nat.add_0_r. }
  rewrite <-(take_drop k ranking) in Hndr, Hsort.
  apply NoDup_app in Hndr as (_ & Hdisj & _).
  assert ((score, image_path) ∈ ranking) as Hxr
    by by apply (subseteq_take k ranking).
  assert (y ∈ ranking) as Hyr by by apply (subseteq_drop k ranking).
  assert (score = (-1)%Q) as ->.
  { rewrite Hperm in Hxr.
    apply elem_of_lookup_zip_with in Hxr as (j & a & b & [= -> ->] & Ha & Hb).
    assert (j = query_idx) as -> by by eapply NoDup_lookup.
    subst sims. rewrite list_lookup_insert_eq in Ha; [congruence|].
    rewrite length_fmap. by eapply lookup_lt_Some. }
  assert (y.1 <= -1)%Q as Hle.
  { unfold descending in Hsort.
    apply Sorted_StronglySorted in Hsort.
    - by apply (StronglySorted_app_1_elem_of _ _ _ _ _ Hsort Hin Hyd).
    - intros a b c ??. by eapply Qle_trans. }
  destruct (Hentry y Hyr) as [->|Hlt].
  - by apply (Hdisj _ Hin).
  - by apply Qlt_not_le in Hlt.
Qed.

(** C3 holds for [N >= 2] ([search_by_text_ranks],
    [search_by_image_ranks]) and fails for [N = 1]: the [.squeeze()] of
    lines 178 and 191 turns the similarities of a one-row snapshot into a
    0-dimensional tensor, [torch.topk] returns 0-dimensional values and
    indices, and the [zip] of line 181 raises instead of yielding the one
    result. *)
Theorem search_single_row_raises (w : World) (e : Engine) (text_query : string)
    (top_k : Z) (row q0 : vector) :
  image_features e = Some [row] →
  length (image_paths e) = 1 →
  isfile w text_query = false →
  encode_text w text_query = Ok q0 →
  length row = length (l2_normalize w q0) →
  (1 ≤ top_k)%Z →
  search w e (QStr text_query) top_k
    = (Raise "iteration over a 0-d tensor", []).
Proof.
  intros Hfeat Hlen Hfile Henc Hdim Hk.
  unfold search. rewrite Hfeat, Hfile.
  unfold _search_by_text, features_of. rewrite Henc, Hfeat. cbn.
  rewrite matmul_T_Ok by (by repeat constructor). cbn.
  unfold rank, topk. rewrite Hlen.
  replace (Z.min top_k (Z.of_nat 1)) with 1%Z by lia. done.
Qed.

Lemma search_single_row_raises_witness :
  search Scenario.album Scenario.indexed_a (QStr "a cat") 1
    = (Raise "iteration over a 0-d tensor", []).
Proof.
  apply (search_single_row_raises Scenario.album Scenario.indexed_a
           "a cat" 1 [1; 0]%Q [1; 0]%Q).
  - reflexivity.
  - reflexivity.
  - reflexivity.
  - reflexivity.
  - reflexivity.
  - lia.
Defined.

(** The same defect on the image path: line 192 indexes the
    0-dimensional tensor. *)
Lemma search_by_image_single_row_raises :
  search Scenario.album Scenario.indexed_a (QStr "/pics/a.jpg") 1
    = (Raise "too many indices for tensor of dimension 0", []).
Proof. reflexivity. Qed.

(** Clamping: [top_k = 1000] over five images gives five results. *)
Lemma search_top_k_clamped_on_five :
  ∃ res, search Scenario.album Scenario.indexed_five (QStr "a cat") 1000
           = (Ok res, []) ∧
         length res = 5 ∧ descending res.
Proof.
  eexists. split; [vm_compute; reflexivity|]. split; [reflexivity|].
  repeat constructor; cbn; unfold Qle; cbn; lia.
Qed.

(** C4 fails on ties at the floor score.  [b.jpg] and [c.jpg] have the
    embedding opposite to the one of [a.jpg]: after the query row is
    forced to [-1] all three similarities are [-1], and the two results
    for the query [a.jpg] include [a.jpg] itself. *)
Theorem search_by_image_returns_query_on_tie :
  search Scenario.album Scenario.indexed_opposite (QStr "/pics/a.jpg") 2
    = (Ok [((-1)%Q, "/pics/c.jpg"); ((-1)%Q, "/pics/a.jpg")], []).
Proof. vm_compute. reflexivity. Qed.

(** The failure does not hang on how [torch.topk] orders equal scores:
    whatever rule picks two positions out of three equal similarities,
    one of the two can be the query row. *)
Lemma any_tie_rule_returns_some_query (select : list Q → nat → list nat) :
  (∀ xs k, k ≤ length xs →
           length (select xs k) = k ∧ ∀ i, i ∈ select xs k → i < length xs) →
  ∃ query_idx,
    let rows := <[query_idx := [1; 0]%Q]> [[-1; 0]; [-1; 0]; [-1; 0]]%Q in
    let similarities :=
      <[query_idx := (-1)%Q]> ((λ r, dot r [1; 0]%Q) <$> rows) in
    rows !! query_idx = Some [1; 0]%Q ∧
    similarities = [-1; -1; -1]%Q ∧
    query_idx ∈ select similarities 2.
Proof.
  intros Hsel.
  destruct (Hsel [-1; -1; -1]%Q 2) as [Hlen Hbound]; [cbn; lia|].
  destruct (select [-1; -1; -1]%Q 2) as [|i rest] eqn:E; [done|].
  assert (i < 3) as Hi by (apply Hbound; left).
  exists i. destruct i as [|[|[|i]]]; [..|lia]; cbn zeta.
  all: split; [reflexivity|]; split; [reflexivity|].
  all: change (<[_ := (-1)%Q]> _) with [-1; -1; -1]%Q; rewrite E; left.
Qed.

(** * Further properties *)

(** ** File names *)

Lemma lower_app (s t : string) :
  Py.lower (s +:+ t) = Py.lower s +:+ Py.lower t.
Proof.
  induction s as [|c s IH]; [done|].
  rewrite string_app_cons. cbn [Py.lower]. by rewrite IH, string_app_cons.
Qed.

Lemma length_lower (s : string) : String.length (Py.lower s) = String.length s.
Proof. induction s as [|c s IH]; cbn; [done | by rewrite IH]. Qed.

Lemma substring_app_skip (s t : string) (n m : nat) :
  String.substring (String.length s + n) m (s +:+ t) = String.substring n m t.
Proof. induction s as [|c s IH]; [done|]. by rewrite string_app_cons. Qed.

Lemma substring_all (t : string) :
  String.substring 0 (String.length t) t = t.
Proof. induction t as [|c t IH]; cbn; [done | by rewrite IH]. Qed.

(** A string is the prefix cut off at [n] followed by the rest. *)
Lemma substring_split (s : string) (n : nat) :
  n ≤ String.length s →
  s = String.substring 0 n s +:+
      String.substring n (String.length s - n) s.
Proof.
  revert n. induction s as [|c s IH]; intros [|n] Hn; cbn in *; try lia.
  - done.
  - by rewrite string_app_nil_l, substring_all.
  - rewrite string_app_cons. f_equal. apply IH. lia.
Qed.

Lemma endswith_iff (s suffix : string) :
  Py.endswith s suffix = true ↔ ∃ pre, s = pre +:+ suffix.
Proof.
  unfold Py.endswith. rewrite andb_true_iff, Nat.leb_le, String.eqb_eq. split.
  - intros [Hlen Hsub].
    exists (String.substring 0 (String.length s - String.length suffix) s).
    set (k := String.length s - String.length suffix).
    rewrite (substring_split s k) at 1 by (subst k; lia).
    f_equal. rewrite <-Hsub. f_equal. subst k. lia.
  - intros [pre ->]. rewrite string_length_app. split; [lia|].
    replace (String.length pre + String.length suffix - String.length suffix)
      with (String.length pre + 0) by lia.
    by rewrite substring_app_skip, substring_all.
Qed.

(** X1.  [is_image_file] looks at the end of the name only, whatever the
    case: a name is an image file exactly when its lower-case form ends
    with one of the five extensions.  A name shorter than four characters
    never is. *)
Theorem is_image_file_iff (filename : string) :
  (is_image_file filename = true ↔
   ∃ pre ext, ext ∈ config.IMAGE_EXTENSIONS ∧
              Py.lower filename = pre +:+ ext) ∧
  (String.length filename < 4 → is_image_file filename = false).
Proof.
  assert (is_image_file filename = true ↔
          ∃ pre ext, ext ∈ config.IMAGE_EXTENSIONS ∧
                     Py.lower filename = pre +:+ ext) as Hiff.
  { unfold is_image_file, Py.endswith_any. rewrite existsb_exists. split.
    - intros (ext & Hin%list_elem_of_In & [pre Hpre]%endswith_iff). eauto.
    - intros (pre & ext & Hin & Heq). exists ext. split.
      + by apply list_elem_of_In.
      + apply endswith_iff. eauto. }
  split; [exact Hiff|].
  intros Hshort. apply not_true_is_false. intros (pre & ext & Hin & Heq)%Hiff.
  apply (f_equal String.length) in Heq.
  rewrite length_lower, string_length_app in Heq.
  assert (4 ≤ String.length ext); [|lia].
  unfold config.IMAGE_EXTENSIONS in Hin.
  repeat (apply elem_of_cons in Hin as [->|Hin]; [cbn; lia|]).
  by apply elem_of_nil in Hin.
Qed.

Lemma is_image_file_iff_witness :
  is_image_file "Holiday.JPeG" = true ∧ is_image_file "jpg" = false.
Proof.
  split.
  - apply (proj1 (is_image_file_iff "Holiday.JPeG")).
    exists "holiday", ".jpeg". split; [compute_done | reflexivity].
  - apply (proj2 (is_image_file_iff "jpg")). cbn. lia.
Defined.

(** ** Paths *)

Lemma rsplit_slash_app (pre t : string) :
  no_slash t → Py.rsplit_slash (pre +:+ "/" +:+ t) = Some (pre, t).
Proof.
  unfold no_slash. intros Ht. induction pre as [|c pre IH].
  - rewrite string_app_nil_l. change ("/" +:+ t) with (String "/" t).
    cbn [Py.rsplit_slash]. by rewrite Ht.
  - rewrite string_app_cons. cbn [Py.rsplit_slash]. by rewrite IH.
Qed.

Lemma no_slash_startswith (t : string) :
  no_slash t → Py.startswith_slash t = false.
Proof.
  unfold no_slash. destruct t as [|c t]; [done|]. cbn.
  destruct (Py.rsplit_slash t) as [[? ?]|]; [done|].
  by destruct (Ascii.eqb c "/").
Qed.

(** [os.path.basename(os.path.join(root, name))] is [name]. *)
Lemma basename_join (root name : string) :
  no_slash name → Py.basename (Py.join root name) = name.
Proof.
  intros Hname. unfold Py.join. rewrite no_slash_startswith by done.
  unfold Py.basename.
  destruct (String.eqb root "") eqn:Hroot; cbn [orb].
  { apply String.eqb_eq in Hroot as ->. rewrite string_app_nil_l.
    unfold no_slash in Hname. by rewrite Hname. }
  destruct (Py.endswith root "/") eqn:Hend.
  - apply endswith_iff in Hend as [pre ->].
    by rewrite string_app_assoc, rsplit_slash_app.
  - by rewrite rsplit_slash_app.
Qed.

Lemma elem_of_scan (w : World) (image_folder p : string) :
  p ∈ scan w image_folder ↔
  ∃ root files file,
    (root, files) ∈ walk w image_folder ∧ file ∈ files ∧
    is_image_file file = true ∧ p = Py.join root file.
Proof.
  unfold scan. rewrite list_elem_of_bind. split.
  - intros ([root files] & Hp & Hrf).
    apply list_elem_of_fmap in Hp as (file & -> & [? ?]%list_elem_of_filter).
    by exists root, files, file.
  - intros (root & files & file & Hrf & Hfile & Himg & ->).
    exists (root, files). split; [|done].
    apply list_elem_of_fmap. exists file. split; [done|].
    by apply list_elem_of_filter.
Qed.

(** X2.  The scan keeps the image files and nothing else: the base name
    of every scanned path is a file name [os.walk] listed and
    [is_image_file] accepted, and every such file is scanned. *)
Theorem scan_image_files (w : World) (image_folder : string) :
  walk_lists_names w image_folder →
  (∀ p, p ∈ scan w image_folder →
        is_image_file (Py.basename p) = true ∧
        ∃ root files, (root, files) ∈ walk w image_folder ∧
                      Py.basename p ∈ files ∧
                      p = Py.join root (Py.basename p)) ∧
  (∀ root files file,
     (root, files) ∈ walk w image_folder → file ∈ files →
     is_image_file file = true → Py.join root file ∈ scan w image_folder).
Proof.
  intros Hnames. split.
  - intros p (root & files & file & Hrf & Hfile & Himg & ->)%elem_of_scan.
    rewrite basename_join by by eapply Hnames.
    split; [done|]. by exists root, files.
  - intros root files file Hrf Hfile Himg. apply elem_of_scan.
    by exists root, files, file.
Qed.

Lemma scan_image_files_witness :
  (∀ p, p ∈ scan Scenario.album "/pics" →
        is_image_file (Py.basename p) = true ∧
        ∃ root files, (root, files) ∈ walk Scenario.album "/pics" ∧
                      Py.basename p ∈ files ∧
                      p = Py.join root (Py.basename p)) ∧
  (∀ root files file,
     (root, files) ∈ walk Scenario.album "/pics" → file ∈ files →
     is_image_file file = true →
     Py.join root file ∈ scan Scenario.album "/pics").
Proof.
  apply scan_image_files.
  intros root files file Hrf Hfile.
  apply list_elem_of_singleton in Hrf as [= -> ->].
  repeat (apply elem_of_cons in Hfile as [->|Hfile]; [reflexivity|]).
  by apply elem_of_nil in Hfile.
Defined.

(** ** Cache paths *)

Lemma lookup_model_elem_of (key : string) (info : config.model_info)
    (l : list (string * config.model_info)) :
  config.lookup_model key l = Some info → (key, info) ∈ l.
Proof.
  induction l as [|[k v] l IH]; [done|]. cbn.
  destruct (String.eqb k key) eqn:E.
  - apply String.eqb_eq in E as ->. intros [= ->]. left.
  - intros H. right. by apply IH.
Qed.

(** The file name of the cache of a catalogue entry. *)
Lemma get_cache_path_Some (e : Engine) (image_folder cache_path : string) :
  _get_cache_path e image_folder = Ok (Some cache_path) →
  ∃ key info,
    model_key e = Some key ∧ (key, info) ∈ config.AVAILABLE_MODELS ∧
    cache_path =
      Py.join (Py.join image_folder config.CACHE_DIR_NAME)
        ("cache_" +:+
         Py.replace_char "-" "_"
           (Py.replace_char "/" "_"
              (config.model_name info +:+ "_" +:+ config.pretrained info)) +:+
         ".pkl").
Proof.
  unfold _get_cache_path. destruct (model_key e) as [key|]; [|done].
  destruct (String.eqb key ""); [done|].
  destruct (config.lookup_model key config.AVAILABLE_MODELS) as [info|] eqn:E;
    [|done].
  intros [= <-]. exists key, info. split; [done|]. split; [|done].
  by apply lookup_model_elem_of.
Qed.

Lemma join_name_inj (a name1 name2 : string) :
  Py.startswith_slash name1 = false → Py.startswith_slash name2 = false →
  Py.join a name1 = Py.join a name2 → name1 = name2.
Proof.
  unfold Py.join. intros -> ->.
  destruct (String.eqb a "" || Py.endswith a "/").
  - by intros ?%String.app_inj.
  - by intros ?%String.app_inj%String.app_inj.
Qed.

(** X3.  Two engines with different model keys never use the same cache
    file for a folder. *)
Theorem cache_paths_of_models_differ (e1 e2 : Engine)
    (image_folder p1 p2 : string) :
  _get_cache_path e1 image_folder = Ok (Some p1) →
  _get_cache_path e2 image_folder = Ok (Some p2) →
  model_key e1 ≠ model_key e2 →
  p1 ≠ p2.
Proof.
  intros (k1 & i1 & Hk1 & Hin1 & ->)%get_cache_path_Some
         (k2 & i2 & Hk2 & Hin2 & ->)%get_cache_path_Some Hne Heq.
  apply Hne. rewrite Hk1, Hk2. f_equal.
  unfold config.AVAILABLE_MODELS in Hin1, Hin2.
  repeat (apply elem_of_cons in Hin1 as [[= -> ->]|Hin1]);
    [..|by apply elem_of_nil in Hin1].
  all: repeat (apply elem_of_cons in Hin2 as [[= -> ->]|Hin2]);
    [..|by apply elem_of_nil in Hin2].
  all: try reflexivity.
  all: apply join_name_inj in Heq; [discriminate|reflexivity..].
Qed.

Lemma cache_paths_of_models_differ_witness :
  "/pics/.clip_search_cache/cache_ViT_B_32_laion2b_s34b_b79k.pkl" ≠
  "/pics/.clip_search_cache/cache_ViT_L_14_laion2b_s32b_b82k.pkl".
Proof.
  apply (cache_paths_of_models_differ Scenario.fresh_engine
           (set_model_key "High Quality (ViT-L/14)" Scenario.fresh_engine)
           "/pics").
  - reflexivity.
  - reflexivity.
  - discriminate.
Defined.

Lemma endswith_app (s t suffix : string) :
  String.length suffix ≤ String.length t →
  Py.endswith (s +:+ t) suffix = Py.endswith t suffix.
Proof.
  intros Hlen. unfold Py.endswith. rewrite string_length_app.
  rewrite (proj2 (Nat.leb_le _ (String.length s + String.length t))) by lia.
  rewrite (proj2 (Nat.leb_le _ (String.length t))) by lia.
  replace (String.length s + String.length t - String.length suffix)
    with (String.length s + (String.length t - String.length suffix)) by lia.
  by rewrite substring_app_skip.
Qed.

(** Whether a long enough name is an image file is decided by its end. *)
Lemma is_image_file_app (s t : string) :
  5 ≤ String.length t → is_image_file (s +:+ t) = is_image_file t.
Proof.
  intros Hlen. unfold is_image_file. rewrite lower_app.
  unfold Py.endswith_any, config.IMAGE_EXTENSIONS. cbn [existsb].
  do 5 (rewrite (endswith_app (Py.lower s) (Py.lower t))
          by (rewrite length_lower; cbn; lia)).
  done.
Qed.

Lemma join_is_app (a b : string) :
  Py.startswith_slash b = false → ∃ pre, Py.join a b = pre +:+ b.
Proof.
  unfold Py.join. intros ->.
  destruct (String.eqb a "" || Py.endswith a "/"); [by exists a|].
  exists (a +:+ "/"). by rewrite string_app_assoc.
Qed.

(** X4.  The cache file is never taken for an image: neither its path
    nor its base name passes [is_image_file], so no scan lists it. *)
Theorem cache_file_is_not_an_image (e : Engine)
    (image_folder cache_path : string) :
  _get_cache_path e image_folder = Ok (Some cache_path) →
  is_image_file cache_path = false ∧
  is_image_file (Py.basename cache_path) = false ∧
  ∀ w folder, walk_lists_names w folder → cache_path ∉ scan w folder.
Proof.
  intros (key & info & _ & Hin & ->)%get_cache_path_Some.
  set (name := "cache_" +:+ _ +:+ ".pkl").
  assert (no_slash name ∧ 5 ≤ String.length name ∧ is_image_file name = false)
    as (Hns & Hlen & Himg).
  { subst name. unfold config.AVAILABLE_MODELS in Hin.
    repeat (apply elem_of_cons in Hin as [[= -> ->]|Hin]);
      [..|by apply elem_of_nil in Hin].
    all: split; [reflexivity|]; split; [vm_compute; lia|reflexivity]. }
  assert (is_image_file (Py.basename (Py.join (Py.join image_folder
            config.CACHE_DIR_NAME) name)) = false) as Hbase.
  { by rewrite basename_join. }
  split; [|split; [done|]].
  - destruct (join_is_app (Py.join image_folder config.CACHE_DIR_NAME) name)
      as [pre ->]; [by apply no_slash_startswith|].
    by rewrite is_image_file_app.
  - intros w folder Hnames
      (root & files & file & Hrf & Hfile & Himg' & Heq)%elem_of_scan.
    rewrite Heq, basename_join in Hbase by (by eapply Hnames). congruence.
Qed.

Lemma cache_file_is_not_an_image_witness :
  is_image_file Scenario.cache_path = false ∧
  is_image_file (Py.basename Scenario.cache_path) = false ∧
  ∀ w folder, walk_lists_names w folder → Scenario.cache_path ∉ scan w folder.
Proof.
  apply (cache_file_is_not_an_image Scenario.fresh_engine "/pics").
  reflexivity.
Defined.

(** ** Runs that fail before the first batch *)


Lemma index_directory_raises_early (w : World) (image_folder : string)
    (m : Machine) (e : string) :
  scan w image_folder ≠ [] →
  (_get_cache_path (eng m) image_folder = Raise e ∨
   (_get_cache_path (eng m) image_folder = Ok None ∧
    e = "expected str, bytes or os.PathLike object, not NoneType") ∨
   (∃ cp, _get_cache_path (eng m) image_folder = Ok (Some cp) ∧
          _get_directory_hash w image_folder (scan w image_folder) = Raise e)) →
  index_directory w image_folder m =
    ({| eng := set_is_indexing false
                 (set_current_directory image_folder (eng m));
        disk := disk m |},
     [unexpected_error e]).
Proof.
  intros Hscan Hcase. unfold index_directory, index_body.
  destruct (scan w image_folder) as [|p0 all] eqn:Escan; [done|].
  rewrite <-Escan in Hcase |- *. clear Hscan.
  unfold bind at 1. unfold modify at 1. unfold bind at 1. unfold get at 1.
  unfold bind at 1. unfold lift at 1.
  replace (_get_cache_path
             (eng (with_eng (set_current_directory image_folder)
                     (with_eng (set_is_indexing true) m))) image_folder)
    with (_get_cache_path (eng m) image_folder) by reflexivity.
  destruct Hcase as [-> | [[-> ->] | (cp & -> & Hh)]]; [done..|].
  unfold bind at 1. unfold makedirs_dirname, ret at 1.
  unfold bind at 1. unfold lift at 1. by rewrite Hh.
Qed.





(** ** Runs in which the model is not called *)

Lemma decode_batch_nil (w : World) (batch_paths : list string) :
  (∀ p, p ∈ batch_paths → ¬ decodes w p) → decode_batch w batch_paths = [].
Proof.
  intros Hno. apply fmap_nil_inv with (f := fst).
  rewrite decode_batch_paths.
  induction batch_paths as [|p l IH]; [done|].
  rewrite filter_cons, decide_False by (apply Hno; left).
  apply IH. intros q Hq. apply Hno. by right.
Qed.

(** With no stop request and no image that decodes, the loop changes
    nothing and signals nothing. *)
Lemma process_batches_nothing_decodes (w : World) (total : nat)
    (batches : list (list string)) :
  ∀ j cached_data m,
    _is_indexing (eng m) = true →
    never_stopped w →
    (∀ b p, b ∈ batches → p ∈ b → ¬ decodes w p) →
    process_batches w total batches j cached_data m
      = (Ok (Some cached_data), m, []).
Proof.
  induction batches as [|b rest IH]; intros j c m Hflag Hstop Hno; [done|].
  rewrite process_batches_cons. cbn zeta. rewrite Hstop, Hflag.
  rewrite decode_batch_nil by (intros p Hp; eapply Hno; [left|done]).
  apply IH; [done..|]. intros b' p Hb' Hp. eapply Hno; [by right|done].
Qed.

Lemma elem_of_batches_of (batch_size : nat) (l b : list string) (p : string) :
  0 < batch_size → b ∈ batches_of batch_size l → p ∈ b → p ∈ l.
Proof.
  intros Hn Hb Hp. rewrite <-(concat_batches_of batch_size l Hn).
  apply list_elem_of_In, in_concat. exists b.
  split; by apply list_elem_of_In.
Qed.

Lemma omap_lookup_nil (c : gmap string vector) (paths : list string) :
  (∀ p, p ∈ paths → c !! p = None) →
  omap id ((λ p, c !! p) <$> paths) = [].
Proof.
  induction paths as [|p l IH]; intros Hnone; [done|].
  rewrite fmap_cons. cbn [omap list_omap]. rewrite (Hnone p) by left. cbn.
  apply IH. intros q Hq. apply Hnone. by right.
Qed.

Lemma filter_lookup_nil (c : gmap string vector) (paths : list string) :
  (∀ p, p ∈ paths → c !! p = None) →
  filter (λ p, is_Some (c !! p)) paths = [].
Proof.
  induction paths as [|p l IH]; intros Hnone; [done|].
  rewrite filter_cons, decide_False.
  - apply IH. intros q Hq. apply Hnone. by right.
  - rewrite (Hnone p) by left. by intros [? ?].
Qed.

(** X7.  When no scanned image decodes and none has a cached feature,
    the run writes the cache all the same, empties [image_paths], fails on
    the empty stack and ends on an error signal; [image_features] keeps
    the matrix of the previous index, which [image_paths] no longer
    matches. *)
Theorem index_directory_nothing_decodes (w : World) (image_folder : string)
    (m : Machine) (cache_path directory_hash : string) :
  scan w image_folder ≠ [] →
  _get_cache_path (eng m) image_folder = Ok (Some cache_path) →
  _get_directory_hash w image_folder (scan w image_folder) = Ok directory_hash →
  never_stopped w →
  (∀ p, p ∈ scan w image_folder → ¬ decodes w p) →
  let cached_data := default ∅ (valid_cache (disk m) cache_path directory_hash) in
  (∀ p, p ∈ scan w image_folder → cached_data !! p = None) →
  let run := index_directory w image_folder m in
  last run.2 = Some (unexpected_error "stack expects a non-empty TensorList") ∧
  encoded_paths run.2 = [] ∧
  disk run.1 !! cache_path
    = Some (Pickled {| ce_directory_hash := Some directory_hash;
                       ce_features := Some cached_data |}) ∧
  image_paths (eng run.1) = [] ∧
  image_features (eng run.1) = image_features (eng m).
Proof.
  intros Hscan Hcp Hh Hstop Hdec cached_data Hnone run. subst run.
  rewrite (index_directory_unfold w image_folder m cache_path directory_hash
             Hscan Hcp Hh).
  cbn zeta. fold cached_data.
  rewrite process_batches_nothing_decodes; [|done..|].
  2:{ intros b p Hb Hp. apply Hdec.
      eapply (elem_of_batches_of config.BATCH_SIZE) in Hp;
        [|unfold config.BATCH_SIZE; lia|done].
      by apply paths_to_process_spec in Hp as [? _]. }
  rewrite omap_lookup_nil by done. cbn [torch_stack fst snd].
  rewrite keep_embedded_filter, filter_lookup_nil by done.
  cbn [app]. rewrite last_snoc.
  repeat split; try done.
  - rewrite encoded_paths_app. cbn. rewrite app_nil_r.
    by destruct (valid_cache _ _ _).
  - cbn. unfold pickle_dump. apply lookup_insert_eq.
Qed.

Lemma index_directory_nothing_decodes_witness :
  let run := index_directory Scenario.album_undecodable "/pics"
               Scenario.machine_a_b in
  last run.2
    = Some (unexpected_error "stack expects a non-empty TensorList") ∧
  encoded_paths run.2 = [] ∧
  disk run.1 !! Scenario.cache_path
    = Some (Pickled
              {| ce_directory_hash :=
                   Some "a.jpg1700000000.0b.jpg1700000000.0c.jpg1700000000.0";
                 ce_features := Some ∅ |}) ∧
  image_paths (eng run.1) = [] ∧
  image_features (eng run.1) = Some [[0; 1]; [1; 0]]%Q.
Proof.
  apply (index_directory_nothing_decodes Scenario.album_undecodable "/pics"
           Scenario.machine_a_b Scenario.cache_path
           "a.jpg1700000000.0b.jpg1700000000.0c.jpg1700000000.0").
  - vm_compute. discriminate.
  - reflexivity.
  - vm_compute. reflexivity.
  - intros j. reflexivity.
  - intros p _ [v Hv]. discriminate.
  - intros p _. vm_compute. reflexivity.
Defined.

(** With a cache that carries the fresh fingerprint and a feature
    for every scanned image that decodes, a run sends nothing to the
    model: it writes the same features back under the same fingerprint,
    touches no other file, and takes as [image_paths] the scanned paths
    that have a feature, in scan order. *)
Lemma index_directory_valid_cache (w : World) (image_folder : string)
    (m : Machine) (cache_path directory_hash : string)
    (cached_data : gmap string vector) :
  scan w image_folder ≠ [] →
  _get_cache_path (eng m) image_folder = Ok (Some cache_path) →
  _get_directory_hash w image_folder (scan w image_folder) = Ok directory_hash →
  valid_cache (disk m) cache_path directory_hash = Some cached_data →
  never_stopped w →
  (∀ p, p ∈ scan w image_folder → decodes w p → is_Some (cached_data !! p)) →
  let run := index_directory w image_folder m in
  encoded_paths run.2 = [] ∧
  disk run.1
    = <[cache_path := Pickled {| ce_directory_hash := Some directory_hash;
                                 ce_features := Some cached_data |}]> (disk m) ∧
  image_paths (eng run.1)
    = filter (λ p, is_Some (cached_data !! p)) (scan w image_folder) ∧
  (torch_stack (omap id ((λ p, cached_data !! p) <$> scan w image_folder))
     = Ok (omap id ((λ p, cached_data !! p) <$> scan w image_folder)) →
   completed run.2 ∧
   image_features (eng run.1)
     = Some (omap id ((λ p, cached_data !! p) <$> scan w image_folder))).
Proof.
  intros Hscan Hcp Hh Hvalid Hstop Hcov run. subst run.
  rewrite (index_directory_unfold w image_folder m cache_path directory_hash
             Hscan Hcp Hh).
  cbn zeta. rewrite Hvalid.
  change (default ∅ (Some cached_data)) with cached_data.
  rewrite process_batches_nothing_decodes; [|done..|].
  2:{ intros b p Hb Hp Hdec.
      eapply (elem_of_batches_of config.BATCH_SIZE) in Hp;
        [|unfold config.BATCH_SIZE; lia|done].
      apply paths_to_process_spec in Hp as [Hp Hnone].
      destruct (Hcov p Hp Hdec) as [v Hv]. by rewrite Hnone in Hv. }
  assert (∀ d : gmap string file_data,
            run_steps (save_cache_steps cache_path
                         {| ce_directory_hash := Some directory_hash;
                            ce_features := Some cached_data |}) d
            = <[cache_path := Pickled {| ce_directory_hash := Some directory_hash;
                                         ce_features := Some cached_data |}]> d)
    as Hsave.
  { intros d. cbn. unfold pickle_dump, open_wb. apply insert_insert_eq. }
  destruct (torch_stack _) as [rows|e] eqn:Hstack; cbn [fst snd].
  all: split; [done|].
  all: split; [cbn; apply Hsave|].
  all: split; [cbn; by rewrite keep_embedded_filter|].
  - intros _. apply torch_stack_Ok in Hstack as [-> _]. split; [|done].
    eexists. by rewrite !app_assoc, last_snoc.
  - intros Hok. by rewrite Hok in Hstack.
Qed.

(** ** What the loop stores *)

Lemma store_features_mono (valid_paths : list string) (batch_features : matrix)
    (cached_data : gmap string vector) (p : string) :
  is_Some (cached_data !! p) →
  is_Some (store_features valid_paths batch_features cached_data !! p).
Proof.
  unfold store_features. revert batch_features cached_data.
  induction valid_paths as [|q l IH]; intros [|f fs] c Hp; try done.
  cbn. apply IH. apply lookup_insert_is_Some'. by right.
Qed.

Lemma store_features_covers (valid_paths : list string) (batch_features : matrix)
    (cached_data : gmap string vector) (p : string) :
  length batch_features = length valid_paths → p ∈ valid_paths →
  is_Some (store_features valid_paths batch_features cached_data !! p).
Proof.
  revert batch_features cached_data.
  induction valid_paths as [|q l IH]; intros [|f fs] c Hlen Hp;
    cbn in Hlen; try done; try lia.
  { by apply elem_of_nil in Hp. }
  change (store_features (q :: l) (f :: fs) c)
    with (store_features l fs (<[q := f]> c)).
  apply elem_of_cons in Hp as [->|Hp].
  - apply store_features_mono. rewrite lookup_insert_eq. by eexists.
  - apply IH; [lia|done].
Qed.

Lemma store_features_size (valid_paths : list string) (batch_features : matrix)
    (cached_data : gmap string vector) :
  size cached_data ≤ size (store_features valid_paths batch_features cached_data).
Proof.
  unfold store_features. revert batch_features cached_data.
  induction valid_paths as [|q l IH]; intros [|f fs] c; try done.
  cbn. etrans; [|apply IH]. rewrite map_size_insert.
  destruct (c !! q); cbn; lia.
Qed.

Lemma store_features_values (P : vector → Prop) (valid_paths : list string)
    (batch_features : matrix) (cached_data : gmap string vector) :
  Forall P batch_features →
  (∀ p v, cached_data !! p = Some v → P v) →
  ∀ p v, store_features valid_paths batch_features cached_data !! p = Some v →
         P v.
Proof.
  unfold store_features. revert batch_features cached_data.
  induction valid_paths as [|q l IH]; intros [|f fs] c Hfs Hc; try done.
  cbn. apply Forall_cons in Hfs as [Hf Hfs]. apply IH; [done|].
  intros p v. rewrite lookup_insert. case_decide; [|by apply Hc].
  by intros [= <-].
Qed.

(** When the model gives one row per image, a loop that runs to its end
    has a feature for every path it had and for every path of its batches
    that decodes. *)
Lemma process_batches_covers (w : World) (total : nat)
    (batches : list (list string)) :
  rows_match_images w →
  ∀ j cached_data m cached_data' m' evs,
    process_batches w total batches j cached_data m
      = (Ok (Some cached_data'), m', evs) →
    (∀ p, is_Some (cached_data !! p) → is_Some (cached_data' !! p)) ∧
    (∀ p, p ∈ concat batches → decodes w p → is_Some (cached_data' !! p)).
Proof.
  intros Hrows.
  induction batches as [|b rest IH]; intros j c m c' m' evs Hrun.
  - cbn in Hrun. unfold ret in Hrun. simplify_eq. split; [done|].
    intros p Hp. by apply elem_of_nil in Hp.
  - rewrite process_batches_cons in Hrun. cbn zeta in Hrun.
    set (m1 := if stop_requested w j then _ else _) in *.
    rewrite concat_cons.
    destruct (_is_indexing (eng m1)); [|done].
    pose proof (decode_batch_paths w b) as Hdec.
    destruct (decode_batch w b) as [|pv dec] eqn:Edec.
    + apply IH in Hrun as [Hmono Hcov]. split; [done|].
      intros p [Hp|Hp]%elem_of_app Hd; [|by apply Hcov].
      assert (p ∈ filter (decodes w) b) as Hin by by apply list_elem_of_filter.
      rewrite <-Hdec in Hin. by apply elem_of_nil in Hin.
    + destruct (encode_image w _) as [feats|e] eqn:Eenc; [|done].
      destruct (process_batches _ _ _ _ _ _) as [[r2 m2] evs2] eqn:Hrest.
      simplify_eq. apply IH in Hrest as [Hmono Hcov].
      apply Hrows in Eenc. split.
      * intros p Hp. by apply Hmono, store_features_mono.
      * intros p [Hp|Hp]%elem_of_app Hd; [|by apply Hcov].
        apply Hmono, store_features_covers.
        -- by rewrite !length_fmap in *.
        -- rewrite Hdec. by apply list_elem_of_filter.
Qed.

(** With no stop request and a model that answers, the loop runs to its
    end. *)
Lemma process_batches_runs (w : World) (total : nat)
    (batches : list (list string)) :
  never_stopped w → one_row_per_image w →
  ∀ j cached_data m,
    _is_indexing (eng m) = true →
    ∃ cached_data' evs,
      process_batches w total batches j cached_data m
        = (Ok (Some cached_data'), m, evs).
Proof.
  intros Hstop Hmodel.
  induction batches as [|b rest IH]; intros j c m Hflag.
  - by eexists _, _.
  - rewrite process_batches_cons. cbn zeta. rewrite Hstop, Hflag.
    destruct (decode_batch w b) as [|pv dec]; [by apply IH|].
    destruct (Hmodel (pv :: dec).*2) as (fs & -> & _).
    edestruct IH as (c' & evs & ->); [done|]. by eexists _, _.
Qed.

(** The values of the cache after the loop are those it had and
    normalized rows of the model. *)
Lemma process_batches_values (w : World) (P : vector → Prop) (total : nat)
    (batches : list (list string)) :
  (∀ ts fs, encode_image w ts = Ok fs → Forall (λ r, P (l2_normalize w r)) fs) →
  ∀ j cached_data m cached_data' m' evs,
    process_batches w total batches j cached_data m
      = (Ok (Some cached_data'), m', evs) →
    (∀ p v, cached_data !! p = Some v → P v) →
    ∀ p v, cached_data' !! p = Some v → P v.
Proof.
  intros Hmodel.
  induction batches as [|b rest IH]; intros j c m c' m' evs Hrun Hc.
  - cbn in Hrun. unfold ret in Hrun. by simplify_eq.
  - rewrite process_batches_cons in Hrun. cbn zeta in Hrun.
    set (m1 := if stop_requested w j then _ else _) in *.
    destruct (_is_indexing (eng m1)); [|done].
    destruct (decode_batch w b) as [|pv dec]; [by eapply IH|].
    destruct (encode_image w _) as [feats|e] eqn:Eenc; [|done].
    destruct (process_batches _ _ _ _ _ _) as [[r2 m2] evs2] eqn:Hrest.
    simplify_eq. eapply IH; [exact Hrest|].
    apply store_features_values; [|done].
    apply Forall_fmap. by apply Hmodel in Eenc.
Qed.

(** The counts of the progress signals of the loop never decrease, from
    the size of the cache the loop starts with. *)
Lemma process_batches_progress (w : World) (total : nat)
    (batches : list (list string)) :
  ∀ j cached_data m r m' evs,
    process_batches w total batches j cached_data m = (r, m', evs) →
    StronglySorted le (size cached_data :: progress_counts evs).
Proof.
  induction batches as [|b rest IH]; intros j c m r m' evs Hrun.
  - cbn in Hrun. unfold ret in Hrun. simplify_eq. repeat constructor.
  - rewrite process_batches_cons in Hrun. cbn zeta in Hrun.
    set (m1 := if stop_requested w j then _ else _) in *.
    destruct (_is_indexing (eng m1)).
    + destruct (decode_batch w b) as [|pv dec]; [by eapply IH|].
      destruct (encode_image w _) as [feats|e]; [|simplify_eq; repeat constructor].
      destruct (process_batches _ _ _ _ _ _) as [[r2 m2] evs2] eqn:Hrest.
      simplify_eq. apply IH in Hrest. cbn [progress_counts].
      constructor; [done|].
      apply StronglySorted_inv in Hrest as [_ Hall].
      constructor; [apply store_features_size|].
      eapply Forall_impl; [exact Hall|]. intros n Hn.
      etrans; [apply store_features_size|exact Hn].
    + simplify_eq. repeat constructor.
Qed.

(** ** Completed runs *)

(** The machine a completed run leaves behind. *)
Lemma index_directory_completed_state (w : World) (image_folder : string)
    (m m' : Machine) (evs : list event) :
  index_directory w image_folder m = (m', evs) → completed evs →
  ∃ cache_path directory_hash cached_data' m1 evs1,
    let all_paths := scan w image_folder in
    let cached_data :=
      default ∅ (valid_cache (disk m) cache_path directory_hash) in
    let rows := omap id ((λ p, cached_data' !! p) <$> all_paths) in
    _get_cache_path (eng m) image_folder = Ok (Some cache_path) ∧
    _get_directory_hash w image_folder all_paths = Ok directory_hash ∧
    process_batches w (length all_paths)
      (batches_of config.BATCH_SIZE (paths_to_process all_paths cached_data))
      0 cached_data
      (with_eng (set_current_directory image_folder)
         (with_eng (set_is_indexing true) m))
      = (Ok (Some cached_data'), m1, evs1) ∧
    torch_stack rows = Ok rows ∧
    m' = {| eng :=
              {| model_key := model_key (eng m);
                 _is_indexing := false;
                 image_paths :=
                   filter (λ p, is_Some (cached_data' !! p)) all_paths;
                 image_features := Some rows;
                 current_directory := Some image_folder |};
            disk :=
              <[cache_path :=
                  Pickled {| ce_directory_hash := Some directory_hash;
                             ce_features := Some cached_data' |}]> (disk m) |}.
Proof.
  intros Hrun Hdone.
  destruct (index_directory_completed_inv w image_folder m)
    as (Hscan & cp & h & Hcp & Hh); [by rewrite Hrun|].
  rewrite (index_directory_unfold w image_folder m cp h Hscan Hcp Hh) in Hrun.
  cbn zeta in Hrun.
  destruct (process_batches _ _ _ _ _ _) as [[r m1] evs1] eqn:Hloop.
  pose proof (process_batches_events _ _ _ _ _ _ _ _ _ Hloop) as (_ & _ & Hr).
  pose proof (process_batches_frame _ _ _ _ _ _ _ _ _ Hloop)
    as (Hdisk & Hkey & _ & _ & Hdir).
  destruct r as [[c'|]|e].
  - destruct (torch_stack _) as [rows|e] eqn:Hstack; simplify_eq.
    + apply torch_stack_Ok in Hstack as Hrows. destruct Hrows as [-> _].
      exists cp, h, c', m1, evs1. cbn zeta. repeat split; try done.
      rewrite keep_embedded_filter.
      destruct m1 as [[k1 f1 ps1 fs1 cd1] d1]. cbn in Hdisk, Hkey, Hdir. subst.
      unfold with_eng, with_disk, set_is_indexing, set_image_features,
        set_image_paths, run_steps, save_cache_steps, pickle_dump, open_wb.
      cbn [foldl eng disk model_key _is_indexing image_paths image_features
           current_directory].
      by rewrite insert_insert_eq.
    + rewrite !app_assoc in Hdone. by apply completed_snoc_error in Hdone.
  - simplify_eq. by apply completed_app_cancelled in Hdone.
  - simplify_eq. rewrite !app_assoc in Hdone.
    by apply completed_snoc_error in Hdone.
Qed.

(** X8.  Indexing an unchanged directory again, right after a run that
    completed, sends nothing to the model and reproduces the machine:
    same snapshot, same cache file. *)
Theorem reindex_unchanged_directory (w : World) (image_folder : string)
    (m m1 : Machine) (evs1 : list event) :
  index_directory w image_folder m = (m1, evs1) → completed evs1 →
  never_stopped w → rows_match_images w →
  let again := index_directory w image_folder m1 in
  again.1 = m1 ∧ encoded_paths again.2 = [] ∧ completed again.2.
Proof.
  intros Hrun Hdone Hstop Hrows again.
  destruct (index_directory_completed_state w image_folder m m1 evs1 Hrun Hdone)
    as (cp & h & c' & mloop & evsloop & Hcp & Hh & Hloop & Hstack & Hm1).
  cbn zeta in *.
  assert (scan w image_folder ≠ []) as Hscan.
  { by destruct (index_directory_completed_inv w image_folder m)
      as [? _]; [by rewrite Hrun|]. }
  assert (_get_cache_path (eng m1) image_folder = Ok (Some cp)) as Hcp1.
  { by rewrite Hm1. }
  assert (valid_cache (disk m1) cp h = Some c') as Hvalid.
  { rewrite Hm1. unfold valid_cache. cbn. rewrite lookup_insert_eq. cbn.
    by rewrite decide_True. }
  assert (∀ p, p ∈ scan w image_folder → decodes w p → is_Some (c' !! p))
    as Hcov.
  { intros p Hp Hd.
    pose proof (process_batches_covers w _ _ Hrows _ _ _ _ _ _ Hloop)
      as [Hmono Hin].
    rewrite concat_batches_of in Hin by (unfold config.BATCH_SIZE; lia).
    destruct (default ∅ (valid_cache (disk m) cp h) !! p) as [v|] eqn:E.
    - apply Hmono. by rewrite E.
    - apply Hin; [|done]. by apply paths_to_process_spec. }
  destruct (index_directory_valid_cache w image_folder m1 cp h c'
              Hscan Hcp1 Hh Hvalid Hstop Hcov)
    as (Henc & Hdisk & Hpaths & Hfin).
  destruct (Hfin Hstack) as [Hdone2 Hfeat].
  fold again in Henc, Hdisk, Hpaths, Hdone2, Hfeat.
  split; [|done].
  destruct (index_directory_completed_state w image_folder m1 again.1 again.2)
    as (? & ? & ? & ? & ? & _ & _ & _ & _ & Hagain);
    [apply surjective_pairing|done|].
  cbn zeta in Hagain. clearbody again.
  clear Hfin Hrun Hloop Hvalid Hcp1 Hcov Hstack.
  destruct again as [[e1 d1] evs2], m1 as [e d].
  cbn [fst snd eng disk] in *.
  injection Hagain as He1 Hd1. injection Hm1 as He Hd.
  f_equal.
  - destruct e1, e. cbn in *. congruence.
  - rewrite Hdisk, Hd. by rewrite insert_insert_eq.
Qed.

Lemma reindex_unchanged_directory_witness :
  let first := index_directory Scenario.album "/pics" Scenario.machine_fresh in
  let again := index_directory Scenario.album "/pics" first.1 in
  again.1 = first.1 ∧ encoded_paths again.2 = [] ∧ completed again.2.
Proof.
  apply (reindex_unchanged_directory Scenario.album "/pics"
           Scenario.machine_fresh _
           (index_directory Scenario.album "/pics" Scenario.machine_fresh).2).
  - apply surjective_pairing.
  - exists 3. vm_compute. reflexivity.
  - intros j. reflexivity.
  - intros ts fs [= <-]. reflexivity.
Defined.

(** X9.  Within one run the count carried by the progress signals never
    decreases. *)
Theorem progress_never_decreases (w : World) (image_folder : string)
    (m : Machine) :
  StronglySorted le (progress_counts (index_directory w image_folder m).2).
Proof.
  destruct (decide (scan w image_folder = [])) as [Hnil|Hscan].
  { unfold index_directory, index_body. rewrite Hnil. constructor. }
  destruct (_get_cache_path (eng m) image_folder) as [[cp|]|e] eqn:Hcp.
  2:{ rewrite (index_directory_raises_early w image_folder m
                 "expected str, bytes or os.PathLike object, not NoneType");
        [constructor|done|by auto]. }
  2:{ rewrite (index_directory_raises_early w image_folder m e);
        [constructor|done|by auto]. }
  destruct (_get_directory_hash w image_folder (scan w image_folder))
    as [h|e] eqn:Hh.
  2:{ rewrite (index_directory_raises_early w image_folder m e);
        [constructor|done|]. right. right. by exists cp. }
  rewrite (index_directory_unfold w image_folder m cp h Hscan Hcp Hh).
  cbn zeta.
  destruct (process_batches _ _ _ _ _ _) as [[r m1] evs] eqn:Hloop.
  apply process_batches_progress in Hloop.
  assert (∀ tail, progress_counts tail = [] →
            StronglySorted le
              (progress_counts
                 (match valid_cache (disk m) cp h with
                  | Some c => [progress 0 100
                                 ("Loaded " +:+ Py.str_of_nat (size c) +:+
                                  " features from valid cache.")]
                  | None => []
                  end ++ evs ++ tail))) as Hgen.
  { intros tail Htail.
    assert (∀ a b, progress_counts (a ++ b)
                   = progress_counts a ++ progress_counts b) as Happ.
    { intros a b. induction a as [|[] a IH]; cbn; by rewrite ?IH. }
    rewrite !Happ, Htail, app_nil_r.
    apply StronglySorted_inv in Hloop as [Hs _].
    destruct (valid_cache _ _ _); cbn; [|done].
    constructor; [done|]. apply Forall_forall. intros; lia. }
  destruct r as [[c'|]|e]; cbn [snd].
  - destruct (torch_stack _); cbn [snd]; by apply Hgen.
  - rewrite <-(app_nil_r evs). by apply Hgen.
  - by apply Hgen.
Qed.

(** X10.  A completed run never drops a feature it has loaded: every
    entry of the cache it started from is in the cache file it writes,
    with the same vector, whether or not its path is still scanned. *)
Theorem cache_only_grows (w : World) (image_folder : string)
    (m m' : Machine) (evs : list event) :
  index_directory w image_folder m = (m', evs) → completed evs →
  ∃ cache_path directory_hash written,
    _get_cache_path (eng m) image_folder = Ok (Some cache_path) ∧
    disk m' !! cache_path
      = Some (Pickled {| ce_directory_hash := Some directory_hash;
                         ce_features := Some written |}) ∧
    ∀ loaded p v,
      valid_cache (disk m) cache_path directory_hash = Some loaded →
      loaded !! p = Some v → written !! p = Some v.
Proof.
  intros Hrun Hdone.
  destruct (index_directory_completed_spec w image_folder m m' evs Hrun Hdone)
    as (cp & h & c' & m1 & evs1 & Hcp & Hh & Hloop & _ & _ & _ & Hdisk).
  exists cp, h, c'. split; [done|]. split; [done|].
  intros loaded p v Hvalid Hp. rewrite Hvalid in Hloop. cbn [default] in Hloop.
  apply process_batches_store in Hloop as [Hout _].
  rewrite concat_batches_of in Hout by (unfold config.BATCH_SIZE; lia).
  rewrite Hout; [done|].
  intros [_ Hnone]%paths_to_process_spec.
  change (id loaded) with loaded in Hnone.
  by rewrite Hp in Hnone.
Qed.

Lemma cache_only_grows_witness :
  ∃ cache_path directory_hash written,
    _get_cache_path (eng Scenario.machine_without_c) "/pics"
      = Ok (Some cache_path) ∧
    disk (index_directory Scenario.album "/pics"
            Scenario.machine_without_c).1 !! cache_path
      = Some (Pickled {| ce_directory_hash := Some directory_hash;
                         ce_features := Some written |}) ∧
    ∀ loaded p v,
      valid_cache (disk Scenario.machine_without_c) cache_path directory_hash
        = Some loaded →
      loaded !! p = Some v → written !! p = Some v.
Proof.
  apply (cache_only_grows Scenario.album "/pics" Scenario.machine_without_c _
           (index_directory Scenario.album "/pics"
              Scenario.machine_without_c).2).
  - apply surjective_pairing.
  - exists 3. vm_compute. reflexivity.
Defined.

(** X11.  The snapshot of a completed run lists the scanned paths that
    have a feature in the written cache, in scan order: a path is never
    repeated unless the scan repeats it, and never reordered. *)
Theorem snapshot_keeps_scan_order (w : World) (image_folder : string)
    (m m' : Machine) (evs : list event) :
  index_directory w image_folder m = (m', evs) → completed evs →
  image_paths (eng m') `sublist_of` scan w image_folder ∧
  (NoDup (scan w image_folder) → NoDup (image_paths (eng m'))) ∧
  image_paths (eng m') ≠ [] ∧
  current_directory (eng m') = Some image_folder.
Proof.
  intros Hrun Hdone.
  destruct (index_directory_completed_state w image_folder m m' evs Hrun Hdone)
    as (cp & h & c' & m1 & evs1 & _ & _ & _ & Hstack & ->).
  cbn. split; [apply sublist_filter|]. split; [apply NoDup_filter|].
  split; [|done].
  apply torch_stack_Ok in Hstack as [_ Hne].
  pose proof (snapshot_aligned c' (scan w image_folder)) as Hal.
  rewrite keep_embedded_filter in Hal. intros Hnil. rewrite Hnil in Hal.
  by apply Forall2_nil_inv_l in Hal.
Qed.

Lemma snapshot_keeps_scan_order_witness :
  let m' := (index_directory Scenario.album_broken_c "/pics"
               Scenario.machine_fresh).1 in
  image_paths (eng m') `sublist_of` scan Scenario.album_broken_c "/pics" ∧
  (NoDup (scan Scenario.album_broken_c "/pics") → NoDup (image_paths (eng m'))) ∧
  image_paths (eng m') ≠ [] ∧
  current_directory (eng m') = Some "/pics".
Proof.
  apply (snapshot_keeps_scan_order Scenario.album_broken_c "/pics"
           Scenario.machine_fresh _
           (index_directory Scenario.album_broken_c "/pics"
              Scenario.machine_fresh).2).
  - apply surjective_pairing.
  - exists 2. vm_compute. reflexivity.
Defined.

(** ** Calls to the model *)

Lemma batches_of_length (batch_size : nat) (l b : list string) :
  0 < batch_size → b ∈ batches_of batch_size l →
  0 < length b ≤ batch_size.
Proof.
  intros Hn Hb. unfold batches_of, Py.range_step in Hb.
  apply list_elem_of_fmap in Hb as (i & -> & Hi).
  apply list_elem_of_fmap in Hi as (k & -> & Hk).
  apply elem_of_seq in Hk. unfold Py.slice.
  rewrite length_take, length_drop.
  pose proof (Nat.div_mod_eq (length l + (batch_size - 1)) batch_size).
  pose proof (Nat.mod_upper_bound (length l + (batch_size - 1)) batch_size).
  nia.
Qed.

Lemma process_batches_calls (w : World) (total : nat)
    (batches : list (list string)) :
  ∀ j cached_data m r m' evs valid_paths,
    process_batches w total batches j cached_data m = (r, m', evs) →
    encode_call valid_paths ∈ evs →
    valid_paths ≠ [] ∧
    ∃ b, b ∈ batches ∧ valid_paths = filter (decodes w) b.
Proof.
  induction batches as [|b rest IH]; intros j c m r m' evs ps Hrun Hin.
  - cbn in Hrun. unfold ret in Hrun. simplify_eq. by apply elem_of_nil in Hin.
  - rewrite process_batches_cons in Hrun. cbn zeta in Hrun.
    set (m1 := if stop_requested w j then _ else _) in *.
    assert (∀ j c m r m' evs,
              process_batches w total rest j c m = (r, m', evs) →
              encode_call ps ∈ evs →
              ps ≠ [] ∧ ∃ b0, b0 ∈ b :: rest ∧ ps = filter (decodes w) b0)
      as IH'.
    { intros ?????? Hrun' Hin'.
      destruct (IH _ _ _ _ _ _ _ Hrun' Hin') as (? & b0 & ? & ?).
      split; [done|]. exists b0. split; [by right|done]. }
    pose proof (decode_batch_paths w b) as Hdec.
    destruct (_is_indexing (eng m1)).
    + destruct (decode_batch w b) as [|pv dec]; [by eapply IH'|].
      destruct (encode_image w _) as [feats|e].
      * destruct (process_batches _ _ _ _ _ _) as [[r2 m2] evs2] eqn:Hrest.
        simplify_eq. apply elem_of_cons in Hin as [[= ->]|Hin].
        -- split; [done|]. exists b. split; [by left|done].
        -- apply elem_of_cons in Hin as [?|Hin]; [done|]. by eapply IH'.
      * simplify_eq. by apply elem_of_nil in Hin.
    + simplify_eq. apply elem_of_cons in Hin as [?|Hin]; [done|].
      by apply elem_of_nil in Hin.
Qed.

(** X12.  Every call to the model within a run carries at least one and
    at most [BATCH_SIZE] images, all of them scanned images that decode. *)
Theorem encode_calls_bounded (w : World) (image_folder : string)
    (m : Machine) (valid_paths : list string) :
  encode_call valid_paths ∈ (index_directory w image_folder m).2 →
  0 < length valid_paths ≤ config.BATCH_SIZE ∧
  ∀ p, p ∈ valid_paths → p ∈ scan w image_folder ∧ decodes w p.
Proof.
  destruct (decide (scan w image_folder = [])) as [Hnil|Hscan].
  { unfold index_directory, index_body. rewrite Hnil. cbn.
    intros Hin. apply elem_of_cons in Hin as [?|Hin]; [done|].
    by apply elem_of_nil in Hin. }
  assert (∀ e, encode_call valid_paths ∉ [unexpected_error e]) as Hno.
  { intros e Hin. apply elem_of_cons in Hin as [?|Hin]; [done|].
    by apply elem_of_nil in Hin. }
  destruct (_get_cache_path (eng m) image_folder) as [[cp|]|e] eqn:Hcp.
  2:{ rewrite (index_directory_raises_early w image_folder m
                 "expected str, bytes or os.PathLike object, not NoneType");
        [by intros ?%Hno|done|by auto]. }
  2:{ rewrite (index_directory_raises_early w image_folder m e);
        [by intros ?%Hno|done|by auto]. }
  destruct (_get_directory_hash w image_folder (scan w image_folder))
    as [h|e] eqn:Hh.
  2:{ rewrite (index_directory_raises_early w image_folder m e);
        [by intros ?%Hno|done|]. right. right. by exists cp. }
  rewrite (index_directory_unfold w image_folder m cp h Hscan Hcp Hh).
  cbn zeta.
  destruct (process_batches _ _ _ _ _ _) as [[r m1] evs] eqn:Hloop.
  assert (encode_call valid_paths ∈ evs →
          0 < length valid_paths ≤ config.BATCH_SIZE ∧
          ∀ p, p ∈ valid_paths → p ∈ scan w image_folder ∧ decodes w p)
    as Hcalls.
  { intros Hin.
    destruct (process_batches_calls _ _ _ _ _ _ _ _ _ _ Hloop Hin)
      as (Hne & b & Hb & ->).
    split.
    - split; [by destruct (filter _ b); [|cbn; lia]|].
      etrans; [apply length_filter|].
      eapply batches_of_length; [|exact Hb]. unfold config.BATCH_SIZE; lia.
    - intros p [Hd Hp]%list_elem_of_filter. split; [|done].
      eapply (elem_of_batches_of config.BATCH_SIZE) in Hp;
        [|unfold config.BATCH_SIZE; lia|done].
      by apply paths_to_process_spec in Hp as [? _]. }
  assert (∀ tail,
            encode_call valid_paths ∉ tail →
            encode_call valid_paths ∈
              match valid_cache (disk m) cp h with
              | Some c => [progress 0 100
                             ("Loaded " +:+ Py.str_of_nat (size c) +:+
                              " features from valid cache.")]
              | None => []
              end ++ evs ++ tail →
            encode_call valid_paths ∈ evs) as Hmid.
  { intros tail Htail [Hin|[Hin|Hin]%elem_of_app]%elem_of_app; [|done..].
    destruct (valid_cache _ _ _); [|by apply elem_of_nil in Hin].
    apply elem_of_cons in Hin as [?|Hin]; [done|].
    by apply elem_of_nil in Hin. }
  assert (∀ ev, ev ≠ encode_call valid_paths →
                encode_call valid_paths ∉ [ev]) as Hone.
  { intros ev Hev Hin. apply elem_of_cons in Hin as [?|Hin]; [done|].
    by apply elem_of_nil in Hin. }
  destruct r as [[c'|]|e]; cbn [snd].
  - destruct (torch_stack _); cbn [snd]; intros Hin;
      eapply Hcalls, Hmid; [|exact Hin| |exact Hin]; by apply Hone.
  - intros Hin. apply Hcalls, (Hmid []); [by intros ?%elem_of_nil|].
    by rewrite app_nil_r.
  - intros Hin. eapply Hcalls, Hmid; [|exact Hin]. by apply Hone.
Qed.

Lemma encode_calls_bounded_witness :
  0 < length ["/pics/a.jpg"; "/pics/b.jpg"; "/pics/c.jpg"]
    ≤ config.BATCH_SIZE ∧
  ∀ p, p ∈ ["/pics/a.jpg"; "/pics/b.jpg"; "/pics/c.jpg"] →
       p ∈ scan Scenario.album "/pics" ∧ decodes Scenario.album p.
Proof.
  apply (encode_calls_bounded Scenario.album "/pics" Scenario.machine_fresh).
  vm_compute. left.
Defined.

(** ** What a run leaves alone *)

(** X13.  Whatever its outcome, a run writes no file but the cache file
    of the loaded model in the indexed folder, and leaves the model key
    as it was. *)
Theorem index_directory_writes_only_cache (w : World) (image_folder : string)
    (m : Machine) (path : string) :
  _get_cache_path (eng m) image_folder ≠ Ok (Some path) →
  let run := index_directory w image_folder m in
  disk run.1 !! path = disk m !! path ∧
  model_key (eng run.1) = model_key (eng m).
Proof.
  intros Hpath. cbn zeta.
  destruct (decide (scan w image_folder = [])) as [Hnil|Hscan].
  { unfold index_directory, index_body. by rewrite Hnil. }
  destruct (_get_cache_path (eng m) image_folder) as [[cp|]|e] eqn:Hcp.
  2:{ by rewrite (index_directory_raises_early w image_folder m
                    "expected str, bytes or os.PathLike object, not NoneType")
        by auto. }
  2:{ by rewrite (index_directory_raises_early w image_folder m e) by auto. }
  destruct (_get_directory_hash w image_folder (scan w image_folder))
    as [h|e] eqn:Hh.
  2:{ rewrite (index_directory_raises_early w image_folder m e); [done..|].
      right. right. by exists cp. }
  rewrite (index_directory_unfold w image_folder m cp h Hscan Hcp Hh).
  cbn zeta.
  destruct (process_batches _ _ _ _ _ _) as [[r m1] evs] eqn:Hloop.
  apply process_batches_frame in Hloop as (Hdisk & Hkey & _).
  cbn in Hdisk, Hkey.
  assert (cp ≠ path) as Hne by congruence.
  destruct r as [[c'|]|e]; cbn [fst].
  - destruct (torch_stack _); cbn; unfold pickle_dump, open_wb;
      by rewrite !lookup_insert_ne, Hdisk.
  - cbn. by rewrite Hdisk.
  - cbn. by rewrite Hdisk.
Qed.

Lemma index_directory_writes_only_cache_witness :
  let run := index_directory Scenario.album "/pics" Scenario.machine_a_b in
  disk run.1 !! "/pics/a.jpg" = disk Scenario.machine_a_b !! "/pics/a.jpg" ∧
  model_key (eng run.1) = model_key (eng Scenario.machine_a_b).
Proof.
  apply (index_directory_writes_only_cache Scenario.album "/pics"
           Scenario.machine_a_b "/pics/a.jpg").
  vm_compute. discriminate.
Defined.

(** ** A first run *)

Lemma filter_ext_elem_of {A} (P Q : A → Prop) `{!∀ x, Decision (P x)}
    `{!∀ x, Decision (Q x)} (l : list A) :
  (∀ x, x ∈ l → P x ↔ Q x) → filter P l = filter Q l.
Proof.
  induction l as [|x l IH]; intros Hext; [done|].
  rewrite !filter_cons, IH by (intros; apply Hext; by right).
  destruct (decide (P x)) as [HP|HP], (decide (Q x)) as [HQ|HQ]; try done.
  - destruct HQ. apply Hext; [left|done].
  - destruct HP. apply Hext; [left|done].
Qed.

Lemma torch_stack_uniform (D : nat) (rows : list vector) :
  rows ≠ [] → Forall (λ r, length r = D) rows → torch_stack rows = Ok rows.
Proof.
  intros Hne Hall. destruct rows as [|v rest]; [done|]. cbn.
  apply Forall_cons in Hall as [Hv Hrest].
  assert (forallb (λ u, length u =? length v) rest = true) as ->; [|done].
  apply forallb_forall. intros u Hu%list_elem_of_In.
  apply Nat.eqb_eq. rewrite Hv. by eapply Forall_forall in Hrest.
Qed.

(** X14.  A run that finds no valid cache, is not stopped, and whose
    model answers every batch with rows of one dimension, completes
    without an error: every scanned image that decodes is sent to the
    model once, in scan order; they are the snapshot, in that order, with
    one row each; and the cache written has a feature for them and for
    nothing else. *)
Theorem index_directory_cold_start (w : World) (image_folder : string)
    (m : Machine) (cache_path directory_hash : string) (D : nat) :
  _get_cache_path (eng m) image_folder = Ok (Some cache_path) →
  _get_directory_hash w image_folder (scan w image_folder) = Ok directory_hash →
  valid_cache (disk m) cache_path directory_hash = None →
  never_stopped w → one_row_per_image w → embeds_to w D →
  (∃ p, p ∈ scan w image_folder ∧ decodes w p) →
  let run := index_directory w image_folder m in
  let decoded := filter (decodes w) (scan w image_folder) in
  completed run.2 ∧ no_error run.2 ∧
  encoded_paths run.2 = decoded ∧
  image_paths (eng run.1) = decoded ∧
  ∃ rows written,
    image_features (eng run.1) = Some rows ∧
    length rows = length decoded ∧
    Forall (λ r, length r = D) rows ∧
    disk run.1 !! cache_path
      = Some (Pickled {| ce_directory_hash := Some directory_hash;
                         ce_features := Some written |}) ∧
    ∀ p, is_Some (written !! p) ↔ p ∈ decoded.
Proof.
  intros Hcp Hh Hvalid Hstop Hmodel Hdim (p0 & Hp0 & Hd0). cbn zeta.
  assert (scan w image_folder ≠ []) as Hscan.
  { intros Hnil. rewrite Hnil in Hp0. by apply elem_of_nil in Hp0. }
  assert (rows_match_images w) as Hrows.
  { intros ts fs Hfs. destruct (Hmodel ts) as (fs' & Hfs' & Hlen). congruence. }
  rewrite (index_directory_unfold w image_folder m cache_path directory_hash
             Hscan Hcp Hh).
  cbn zeta. rewrite Hvalid. cbn [default app].
  rewrite paths_to_process_empty.
  set (m0 := with_eng (set_current_directory image_folder)
               (with_eng (set_is_indexing true) m)).
  destruct (process_batches_runs w (length (scan w image_folder))
              (batches_of config.BATCH_SIZE (scan w image_folder))
              Hstop Hmodel 0 ∅ m0 eq_refl) as (c' & evs & Hloop).
  rewrite Hloop.
  pose proof (process_batches_events _ _ _ _ _ _ _ _ _ Hloop)
    as (Hnoerr & _ & Henc & Hnofin).
  pose proof (process_batches_store _ _ _ _ _ _ _ _ _ Hloop) as [_ Hin].
  pose proof (process_batches_covers _ _ _ Hrows _ _ _ _ _ _ Hloop)
    as [_ Hcov].
  pose proof (process_batches_values w (λ r, length r = D) _ _ Hdim
                _ _ _ _ _ _ Hloop) as Hval.
  rewrite concat_batches_of in Henc, Hin, Hcov by (unfold config.BATCH_SIZE; lia).
  assert (∀ p, is_Some (c' !! p) ↔ p ∈ filter (decodes w) (scan w image_folder))
    as Hdom.
  { intros p. rewrite list_elem_of_filter. split.
    - intros Hp. destruct (Hin p Hp) as [[? Hempty]|[? ?]]; [|done].
      by rewrite lookup_empty in Hempty.
    - intros [? ?]. by apply Hcov. }
  assert (filter (λ p, is_Some (c' !! p)) (scan w image_folder)
          = filter (decodes w) (scan w image_folder)) as Hfilter.
  { apply filter_ext_elem_of. intros p Hp. rewrite Hdom, list_elem_of_filter.
    tauto. }
  set (rows := omap id ((λ p, c' !! p) <$> scan w image_folder)).
  pose proof (snapshot_aligned c' (scan w image_folder)) as Hal.
  rewrite keep_embedded_filter, Hfilter in Hal. fold rows in Hal.
  assert (Forall (λ r, length r = D) rows) as Hall.
  { apply Forall_forall. intros r Hr.
    apply list_elem_of_lookup in Hr as [i Hr].
    destruct (Forall2_lookup_r _ _ _ _ _ Hal Hr) as (p & _ & Hp).
    eapply Hval; [|exact Hp]. intros ?? Hempty. by rewrite lookup_empty in Hempty. }
  assert (rows ≠ []) as Hne.
  { intros Hnil. rewrite Hnil in Hal. apply Forall2_nil_inv_r in Hal.
    assert (p0 ∈ filter (decodes w) (scan w image_folder)) as Hin0
      by by apply list_elem_of_filter.
    rewrite Hal in Hin0. by apply elem_of_nil in Hin0. }
  rewrite (torch_stack_uniform D rows Hne Hall). cbn [fst snd].
  split; [eexists; by rewrite last_snoc|].
  split.
  { intros msg [Hin'|Hin']%elem_of_app; [by apply (Hnoerr msg)|].
    apply elem_of_cons in Hin' as [?|Hin']; [done|].
    by apply elem_of_nil in Hin'. }
  split.
  { rewrite encoded_paths_app. cbn. by rewrite app_nil_r. }
  split.
  { cbn. by rewrite keep_embedded_filter. }
  exists rows, c'. split; [done|].
  split; [symmetry; by eapply Forall2_length|].
  split; [done|].
  split; [|done].
  cbn. unfold pickle_dump. apply lookup_insert_eq.
Qed.

Lemma index_directory_cold_start_witness :
  let run := index_directory Scenario.album_flat "/pics"
               Scenario.machine_fresh in
  let decoded := filter (decodes Scenario.album_flat)
                   (scan Scenario.album_flat "/pics") in
  completed run.2 ∧ no_error run.2 ∧
  encoded_paths run.2 = decoded ∧
  image_paths (eng run.1) = decoded ∧
  ∃ rows written,
    image_features (eng run.1) = Some rows ∧
    length rows = length decoded ∧
    Forall (λ r, length r = 2) rows ∧
    disk run.1 !! Scenario.cache_path
      = Some (Pickled
                {| ce_directory_hash :=
                     Some "a.jpg1700000000.0b.jpg1700000000.0c.jpg1700000000.0";
                   ce_features := Some written |}) ∧
    ∀ p, is_Some (written !! p) ↔ p ∈ decoded.
Proof.
  apply (index_directory_cold_start Scenario.album_flat "/pics"
           Scenario.machine_fresh Scenario.cache_path
           "a.jpg1700000000.0b.jpg1700000000.0c.jpg1700000000.0" 2).
  - reflexivity.
  - vm_compute. reflexivity.
  - reflexivity.
  - intros j. reflexivity.
  - intros ts. eexists. split; [reflexivity|]. cbn. by rewrite length_fmap.
  - intros ts fs [= <-]. cbn. apply Forall_fmap, Forall_true. reflexivity.
  - exists "/pics/a.jpg". split; [vm_compute; left|]. by eexists.
Defined.

(** ** Search over two or more images *)

Lemma descending_split {A} (ranking : list (Q * A)) (k : nat) :
  descending ranking →
  descending (take k ranking) ∧
  ∀ a b, a ∈ take k ranking → b ∈ drop k ranking → (b.1 <= a.1)%Q.
Proof.
  unfold descending. intros Hsort.
  apply Sorted_StronglySorted in Hsort;
    [|intros a b c ??; by eapply Qle_trans].
  rewrite <-(take_drop k ranking) in Hsort. split.
  - apply StronglySorted_Sorted. by apply StronglySorted_app_1_l in Hsort.
  - intros a b Ha Hb.
    by apply (StronglySorted_app_1_elem_of _ _ _ _ _ Hsort Ha Hb).
Qed.

Lemma index_lt (l : list string) (x : string) (i : nat) :
  Py.index l x = Some i → i < length l.
Proof. intros Hi%index_Some. by eapply lookup_lt_Some. Qed.

Lemma elem_of_index (l : list string) (x : string) :
  x ∈ l → is_Some (Py.index l x).
Proof.
  intros Hx. unfold Py.index.
  destruct (list_find_elem_of (λ y, y = x) l x Hx eq_refl) as [[i y] ->].
  by eexists.
Qed.

(** X15.  A text query over a snapshot of [N >= 2] images is answered
    with [min(top_k, N)] pairs in descending score order; the pairs are
    (dot product with the normalized query, path) of indexed rows, each
    row at most once, and no row left out scores above a returned one. *)
Theorem search_text_top_k (w : World) (e : Engine) (text_query : string)
    (top_k : Z) (rows : matrix) (q0 : vector) :
  image_features e = Some rows →
  isfile w text_query = false →
  encode_text w text_query = Ok q0 →
  length rows = length (image_paths e) →
  2 ≤ length rows →
  Forall (λ r, length r = length (l2_normalize w q0)) rows →
  (1 ≤ top_k)%Z →
  ∃ res rest,
    search w e (QStr text_query) top_k = (Ok res, []) ∧
    length res = Z.to_nat (Z.min top_k (Z.of_nat (length rows))) ∧
    descending res ∧
    res ++ rest ≡ₚ
      zip ((λ r, dot r (l2_normalize w q0)) <$> rows) (image_paths e) ∧
    ∀ a b, a ∈ res → b ∈ rest → (b.1 <= a.1)%Q.
Proof.
  intros Hfeat Hfile Henc Hlen HN Hdim Hk.
  destruct (search_by_text_ranks w e text_query top_k rows q0
              Hfeat Henc Hlen HN Hdim Hk)
    as (ranking & res & Hres & Hperm & Hsort & -> & Hlres).
  set (k := Z.to_nat (Z.min top_k (Z.of_nat (length rows)))) in *.
  exists (take k ranking), (drop k ranking).
  unfold search. rewrite Hfeat, Hfile, Hres.
  destruct (descending_split ranking k Hsort) as [Hd Hcross].
  by rewrite take_drop.
Qed.

Lemma search_text_top_k_witness :
  ∃ res rest,
    search Scenario.album Scenario.indexed_five (QStr "a cat") 3
      = (Ok res, []) ∧
    length res = 3 ∧
    descending res ∧
    res ++ rest ≡ₚ
      zip ((λ r, dot r [1; 0]%Q) <$>
           [[0; 1]; [1; 0]; [3 # 5; 4 # 5]; [-1; 0]; [4 # 5; 3 # 5]]%Q)
          (image_paths Scenario.indexed_five) ∧
    ∀ a b, a ∈ res → b ∈ rest → (b.1 <= a.1)%Q.
Proof.
  apply (search_text_top_k Scenario.album Scenario.indexed_five "a cat" 3
           [[0; 1]; [1; 0]; [3 # 5; 4 # 5]; [-1; 0]; [4 # 5; 3 # 5]]%Q
           [1; 0]%Q).
  - reflexivity.
  - reflexivity.
  - reflexivity.
  - reflexivity.
  - cbn. lia.
  - repeat constructor.
  - lia.
Defined.

(** X16.  An image query over a snapshot of [N >= 2] images is answered
    with [min(top_k, N - 1)] pairs in descending score order, with paths
    of the snapshot; when the paths are distinct and every other row
    scores strictly above [-1] against the query row, the query path is
    not among them. *)
Theorem search_image_top_k (w : World) (e : Engine) (image_path : string)
    (top_k : Z) (rows : matrix) (D : nat) :
  image_features e = Some rows →
  isfile w image_path = true →
  image_path ∈ image_paths e →
  length rows = length (image_paths e) →
  2 ≤ length rows →
  Forall (λ r, length r = D) rows →
  (1 ≤ top_k)%Z →
  ∃ res query_idx query_features,
    search w e (QStr image_path) top_k = (Ok res, []) ∧
    Py.index (image_paths e) image_path = Some query_idx ∧
    rows !! query_idx = Some query_features ∧
    length res = Z.to_nat (Z.min top_k (Z.of_nat (length rows) - 1)) ∧
    descending res ∧
    (∀ sp, sp ∈ res → sp.2 ∈ image_paths e) ∧
    (NoDup (image_paths e) →
     (∀ i r, rows !! i = Some r → i ≠ query_idx →
             (-1 < dot r query_features)%Q) →
     ∀ score, (score, image_path) ∉ res).
Proof.
  intros Hfeat Hfile Hin Hlen HN Hdim Hk.
  destruct (elem_of_index _ _ Hin) as [query_idx Hidx].
  destruct (lookup_lt_is_Some_2 rows query_idx) as [query_features Hrow].
  { rewrite Hlen. by eapply index_lt. }
  assert (Forall (λ r, length r = length query_features) rows) as Hdim'.
  { assert (length query_features = D) as ->; [|done].
    by eapply (Forall_lookup_1 _ _ _ _ Hdim Hrow). }
  destruct (search_by_image_ranks e image_path top_k rows query_idx
              query_features Hfeat Hidx Hrow Hlen HN Hdim' Hk)
    as (ranking & res & Hres & Hperm & Hsort & Hres_eq & Hlres).
  exists res, query_idx, query_features.
  unfold search. rewrite Hfeat, Hfile.
  split; [done|]. split; [done|]. split; [done|]. split; [done|].
  split; [rewrite Hres_eq; by apply descending_split|].
  split.
  - intros sp Hsp. rewrite Hres_eq in Hsp.
    apply (subseteq_take _ ranking) in Hsp. rewrite Hperm in Hsp.
    apply elem_of_lookup_zip_with in Hsp as (i & a & b & -> & _ & Hb).
    cbn. by eapply list_elem_of_lookup_2.
  - intros Hnd Hstrict.
    by eapply (search_by_image_excludes_self e image_path top_k rows
                 query_idx query_features res).
Qed.

Lemma search_image_top_k_witness :
  ∃ res query_idx query_features,
    search Scenario.album Scenario.indexed_a_b (QStr "/pics/a.jpg") 5
      = (Ok res, []) ∧
    Py.index (image_paths Scenario.indexed_a_b) "/pics/a.jpg"
      = Some query_idx ∧
    [[0; 1]; [1; 0]]%Q !! query_idx = Some query_features ∧
    length res = 1 ∧
    descending res ∧
    (∀ sp, sp ∈ res → sp.2 ∈ image_paths Scenario.indexed_a_b) ∧
    (NoDup (image_paths Scenario.indexed_a_b) →
     (∀ i r, [[0; 1]; [1; 0]]%Q !! i = Some r → i ≠ query_idx →
             (-1 < dot r query_features)%Q) →
     ∀ score, (score, "/pics/a.jpg") ∉ res).
Proof.
  apply (search_image_top_k Scenario.album Scenario.indexed_a_b "/pics/a.jpg"
           5 [[0; 1]; [1; 0]]%Q 2).
  - reflexivity.
  - reflexivity.
  - left.
  - reflexivity.
  - cbn. lia.
  - repeat constructor.
  - lia.
Defined.




(** ** Features change on completion only *)

(** X18.  A run that does not end on the completion signal leaves
    [image_features] as it found it. *)
Theorem image_features_change_on_completion_only (w : World)
    (image_folder : string) (m : Machine) :
  let run := index_directory w image_folder m in
  ¬ completed run.2 →
  image_features (eng run.1) = image_features (eng m).
Proof.
  cbn zeta.
  destruct (decide (scan w image_folder = [])) as [Hnil|Hscan].
  { unfold index_directory, index_body. by rewrite Hnil. }
  destruct (_get_cache_path (eng m) image_folder) as [[cp|]|e] eqn:Hcp.
  2:{ by rewrite (index_directory_raises_early w image_folder m
                    "expected str, bytes or os.PathLike object, not NoneType")
        by auto. }
  2:{ by rewrite (index_directory_raises_early w image_folder m e) by auto. }
  destruct (_get_directory_hash w image_folder (scan w image_folder))
    as [h|e] eqn:Hh.
  2:{ rewrite (index_directory_raises_early w image_folder m e); [done..|].
      right. right. by exists cp. }
  rewrite (index_directory_unfold w image_folder m cp h Hscan Hcp Hh).
  cbn zeta.
  destruct (process_batches _ _ _ _ _ _) as [[r m1] evs] eqn:Hloop.
  apply process_batches_frame in Hloop as (_ & _ & _ & Hfeat & _).
  cbn in Hfeat.
  destruct r as [[c'|]|e]; cbn [fst snd]; [|done..].
  destruct (torch_stack _); cbn [fst snd]; [|done].
  intros Hnot. destruct Hnot. eexists. by rewrite !app_assoc, last_snoc.
Qed.

Lemma image_features_change_on_completion_only_witness :
  image_features
    (eng (index_directory Scenario.album_stopped "/pics"
            Scenario.machine_a_b).1)
    = Some [[0; 1]; [1; 0]]%Q.
Proof.
  apply (image_features_change_on_completion_only Scenario.album_stopped
           "/pics" Scenario.machine_a_b).
  intros [n Hn]. vm_compute in Hn. discriminate.
Defined.

(** ** Model loading *)

Lemma lookup_model_empty_key :
  config.lookup_model "" config.AVAILABLE_MODELS = None.
Proof. reflexivity. Qed.

(** X19.  [load_model] never touches the index, the directory or the
    indexing flag.  It ends on one [finished] or one [error] signal: after
    [finished] the engine holds a model under the requested key, after
    [error] the key is the one it had. *)
Theorem load_model_outcome (oc : OpenClip) (key : string) (s : Loaded) :
  let run := load_model oc key s in
  same_but_key (engine s) (engine run.1) ∧
  ((∃ msg, last run.2 = Some (finished msg)) ∧
   model_key (engine run.1) = Some key ∧ is_Some (model run.1)
   ∨
   (∃ msg, last run.2 = Some (error msg)) ∧
   model_key (engine run.1) = model_key (engine s)).
Proof.
  cbn zeta. unfold load_model.
  destruct (bool_decide (is_Some (model s))) eqn:Hm;
    destruct (bool_decide (model_key (engine s) = Some key)) eqn:Hk;
    cbn [andb].
  { apply bool_decide_eq_true in Hm, Hk. split; [done|]. left.
    split; [by eexists|done]. }
  all: unfold load_model_body.
  all: destruct (config.lookup_model key config.AVAILABLE_MODELS) as [info|];
    [|split; [done|]; right; split; [by eexists|done]].
  all: destruct (create_model_and_transforms oc info);
    [|split; [done|]; right; split; [by eexists|done]].
  all: destruct (model_eval oc info);
    [|split; [done|]; right; split; [by eexists|done]].
  all: split; [done|]; left; split; [by eexists|]; split; [done|by eexists].
Qed.

(** X20.  After a load that reports success the engine is ready: the key
    is in the catalogue, the cache path of any folder is defined, and
    loading the same key again does nothing but report that the model is
    already loaded, without a call to [open_clip]. *)
Theorem load_model_success (oc : OpenClip) (key : string) (s s' : Loaded)
    (evs : list event) (image_folder : string) :
  load_model oc key s = (s', evs) →
  last evs = Some (finished "Model loaded successfully.") →
  ∃ model_info cache_path,
    config.lookup_model key config.AVAILABLE_MODELS = Some model_info ∧
    model s' = Some model_info ∧
    model_key (engine s') = Some key ∧
    _get_cache_path (engine s') image_folder = Ok (Some cache_path) ∧
    ∀ oc',
      load_model oc' key s'
        = (s', [finished ("Model '" +:+ key +:+ "' is already loaded.")]).
Proof.
  unfold load_model.
  destruct (bool_decide (is_Some (model s)) &&
            bool_decide (model_key (engine s) = Some key)).
  { intros [= <- <-]. cbn. rewrite !string_app_cons. by intros [=]. }
  unfold load_model_body.
  destruct (config.lookup_model key config.AVAILABLE_MODELS) as [info|] eqn:Hinfo;
    [|by intros [= <- <-]].
  destruct (create_model_and_transforms oc info); [|by intros [= <- <-]].
  destruct (model_eval oc info); [|by intros [= <- <-]].
  intros [= <- <-] _.
  assert (key ≠ "") as Hne.
  { intros ->. by rewrite lookup_model_empty_key in Hinfo. }
  eexists info, _. split; [done|]. split; [done|]. split; [done|]. split.
  - unfold _get_cache_path. cbn [engine set_model_key model_key].
    rewrite Hinfo. by apply String.eqb_neq in Hne as ->.
  - intros oc'. cbn [engine model set_model_key model_key].
    rewrite bool_decide_eq_true_2 by (by eexists).
    by rewrite bool_decide_eq_true_2.
Qed.

Lemma load_model_success_witness :
  ∃ model_info cache_path,
    config.lookup_model "Fast (ViT-B/32)" config.AVAILABLE_MODELS
      = Some model_info ∧
    model (load_model Scenario.open_clip_ok "Fast (ViT-B/32)"
             Scenario.unloaded).1 = Some model_info ∧
    model_key (engine (load_model Scenario.open_clip_ok "Fast (ViT-B/32)"
                         Scenario.unloaded).1) = Some "Fast (ViT-B/32)" ∧
    _get_cache_path
      (engine (load_model Scenario.open_clip_ok "Fast (ViT-B/32)"
                 Scenario.unloaded).1) "/pics" = Ok (Some cache_path) ∧
    ∀ oc',
      load_model oc' "Fast (ViT-B/32)"
        (load_model Scenario.open_clip_ok "Fast (ViT-B/32)" Scenario.unloaded).1
        = ((load_model Scenario.open_clip_ok "Fast (ViT-B/32)"
              Scenario.unloaded).1,
           [finished ("Model '" +:+ "Fast (ViT-B/32)" +:+ "' is already loaded.")]).
Proof.
  apply (load_model_success Scenario.open_clip_ok "Fast (ViT-B/32)"
           Scenario.unloaded _
           (load_model Scenario.open_clip_ok "Fast (ViT-B/32)"
              Scenario.unloaded).2).
  - apply surjective_pairing.
  - reflexivity.
Defined.

(** ** Changing the model *)

Lemma load_model_same_but_key (oc : OpenClip) (key : string) (s : Loaded) :
  same_but_key (engine s) (engine (load_model oc key s).1).
Proof.
  unfold load_model, load_model_body.
  destruct (_ && _); [done|].
  destruct (config.lookup_model key config.AVAILABLE_MODELS) as [info|];
    [|done].
  destruct (create_model_and_transforms oc info); [|done].
  by destruct (model_eval oc info).
Qed.

(** X21.  Changing the model from the window invalidates the index,
    whether the load succeeds, fails, or finds the model already loaded:
    after it, every search is answered with the request to index a
    directory.  The list of paths of the old index stays. *)
Theorem change_model_invalidates_index (oc : OpenClip) (key : string)
    (s : Loaded) (w : World) (q : query) (top_k : Z) :
  key ≠ "" →
  let s' := (change_model oc key s).1 in
  image_features (engine s') = None ∧
  image_paths (engine s') = image_paths (engine s) ∧
  search w (engine s') q top_k
    = (Ok [], [error "Please index a directory before searching."]).
Proof.
  intros Hkey. cbn zeta. unfold change_model.
  apply String.eqb_neq in Hkey as ->.
  destruct (load_model_same_but_key oc key
              {| engine := clear_image_features (engine s); model := model s |})
    as (_ & Hpaths & Hfeat & _).
  cbn in Hpaths, Hfeat. split; [done|]. split; [done|].
  unfold search. by rewrite Hfeat.
Qed.

Lemma change_model_invalidates_index_witness :
  let s' := (change_model Scenario.open_clip_ok "High Quality (ViT-L/14)"
               {| engine := Scenario.indexed_a_b;
                  model := Some {| config.model_name := "ViT-B-32";
                                   config.pretrained := "laion2b_s34b_b79k" |} |}).1 in
  image_features (engine s') = None ∧
  image_paths (engine s') = ["/pics/a.jpg"; "/pics/b.jpg"] ∧
  search Scenario.album (engine s') (QStr "a cat") 5
    = (Ok [], [error "Please index a directory before searching."]).
Proof.
  apply (change_model_invalidates_index Scenario.open_clip_ok
           "High Quality (ViT-L/14)"
           {| engine := Scenario.indexed_a_b;
              model := Some {| config.model_name := "ViT-B-32";
                               config.pretrained := "laion2b_s34b_b79k" |} |}
           Scenario.album (QStr "a cat") 5).
  discriminate.
Defined.

(** ** Where the cache file lies *)

(** X22.  The cache file of every model of the catalogue lies directly
    in the hidden cache directory of the indexed folder: its name has no
    path separator left after the sanitization, starts with [cache_] and
    ends with [.pkl]. *)
Theorem cache_path_in_cache_dir (e : Engine) (image_folder cache_path : string) :
  _get_cache_path e image_folder = Ok (Some cache_path) →
  ∃ name stem,
    cache_path = Py.join (Py.join image_folder config.CACHE_DIR_NAME) name ∧
    name = "cache_" +:+ stem +:+ ".pkl" ∧
    no_slash name ∧
    Py.basename cache_path = name.
Proof.
  intros (key & info & _ & Hin & ->)%get_cache_path_Some.
  eexists _, _. split; [done|]. split; [done|].
  assert (no_slash
            ("cache_" +:+
             Py.replace_char "-" "_"
               (Py.replace_char "/" "_"
                  (config.model_name info +:+ "_" +:+ config.pretrained info)) +:+
             ".pkl")) as Hns.
  { unfold config.AVAILABLE_MODELS in Hin.
    repeat (apply elem_of_cons in Hin as [[= -> ->]|Hin]);
      [..|by apply elem_of_nil in Hin].
    all: reflexivity. }
  split; [done|]. by apply basename_join.
Qed.

Lemma cache_path_in_cache_dir_witness :
  ∃ name stem,
    Scenario.cache_path
      = Py.join (Py.join "/pics" config.CACHE_DIR_NAME) name ∧
    name = "cache_" +:+ stem +:+ ".pkl" ∧
    no_slash name ∧
    Py.basename Scenario.cache_path = name.
Proof.
  apply (cache_path_in_cache_dir Scenario.fresh_engine "/pics").
  reflexivity.
Defined.
